(** * An in-memory file-system tree (src/main.py), shallowly embedded.

    [FileSystemNode] is the dataclass of the same name: its [children] and
    [permissions] dicts are association lists kept in Python's insertion
    order.  A [FileSystem] is its root node; every operation takes the root
    and returns the new root (the nodes are owned by their parents, so an
    in-place mutation of a node reached from the root is a rebuild of the
    path to it).  Each [raise ValueError(...)] becomes an [Err] carrying the
    message it raises. *)

From Stdlib Require Import String Ascii List Bool Arith Lia.
Import ListNotations.

Set Warnings "-register-all".

Open Scope bool_scope.

(** ** Python string primitives *)

Definition char_in (c : ascii) (chars : string) : bool :=
  existsb (fun d => Ascii.eqb c d) (list_ascii_of_string chars).

Fixpoint drop_chars (chars : string) (l : list ascii) : list ascii :=
  match l with
  | [] => []
  | c :: r => if char_in c chars then drop_chars chars r else l
  end.

(** [s.strip(chars)]: drop every leading and trailing character of [s]
    that occurs in [chars]. *)
Definition py_strip (chars s : string) : string :=
  string_of_list_ascii
    (rev (drop_chars chars (rev (drop_chars chars (list_ascii_of_string s))))).

(** [s.split(sep)] for a one-character separator: never empty, and
    [""] splits into [[""]]. *)
Fixpoint py_split (sep : ascii) (s : string) : list string :=
  match s with
  | EmptyString => [EmptyString]
  | String c r =>
      let rest := py_split sep r in
      if Ascii.eqb c sep then EmptyString :: rest
      else match rest with
           | [] => [String c EmptyString]
           | h :: t => String c h :: t
           end
  end.

(** [path.strip("/").split("/")], the parsing shared by every operation. *)
Definition path_parts (path : string) : list string :=
  py_split "/"%char (py_strip "/" path).

(** ** Python dicts with string keys, in insertion order *)

Section Dict.
Context {V : Type}.

(** [d.get(k)] *)
Fixpoint dict_get (k : string) (d : list (string * V)) : option V :=
  match d with
  | [] => None
  | (k', v) :: r => if String.eqb k' k then Some v else dict_get k r
  end.

(** [k in d] *)
Definition dict_mem (k : string) (d : list (string * V)) : bool :=
  match dict_get k d with Some _ => true | None => false end.

(** [d[k] = v]: an existing key keeps its place, a new key goes last. *)
Fixpoint dict_set (k : string) (v : V) (d : list (string * V)) : list (string * V) :=
  match d with
  | [] => [(k, v)]
  | (k', v') :: r =>
      if String.eqb k' k then (k', v) :: r else (k', v') :: dict_set k v r
  end.

(** [del d[k]] (only run when [k in d]). *)
Definition dict_del (k : string) (d : list (string * V)) : list (string * V) :=
  filter (fun kv => negb (String.eqb (fst kv) k)) d.

(** [list(d.keys())] *)
Definition dict_keys (d : list (string * V)) : list string := map fst d.

End Dict.

(** ** [FileSystemNode] *)

Inductive FileSystemNode : Type := mkNode {
  name : string;
  is_file : bool;
  children : list (string * FileSystemNode);
  permissions : list (string * string)
}.

(** The messages of the [ValueError]s the code raises. *)
Inductive FsError : Type :=
  | CannotAddToFile          (* "Cannot add child to a file" *)
  | ChildAlreadyExists       (* "Child with name ... already exists." *)
  | ChildNotFound            (* "Child ... not found." *)
  | CannotCreateInsideFile   (* "Cannot create path inside a file" *)
  | PathConflict             (* "Path conflict: ... different type." *)
  | PathNotFound             (* "Path not found." *)
  | NotADirectory.           (* "Path is not a directory." *)

(** The error taxonomy of the specification. *)
Inductive ErrorKind : Type :=
  | InvalidOperation | AlreadyExists | TypeConflict | NotFound.

Definition kind (e : FsError) : ErrorKind :=
  match e with
  | CannotAddToFile | CannotCreateInsideFile => InvalidOperation
  | ChildAlreadyExists => AlreadyExists
  | PathConflict => TypeConflict
  | ChildNotFound | PathNotFound | NotADirectory => NotFound
  end.

Inductive result (A : Type) : Type :=
  | Ok (a : A)
  | Err (e : FsError).
Arguments Ok {A} a.
Arguments Err {A} e.

Definition with_children (self : FileSystemNode)
    (ch : list (string * FileSystemNode)) : FileSystemNode :=
  mkNode (name self) (is_file self) ch (permissions self).

Definition add_child (self child : FileSystemNode) : result FileSystemNode :=
  if is_file self then Err CannotAddToFile
  else if dict_mem (name child) (children self) then Err ChildAlreadyExists
  else Ok (with_children self (dict_set (name child) child (children self))).

Definition remove_child (self : FileSystemNode) (child_name : string)
    : result FileSystemNode :=
  if match children self with [] => true | _ => false end
     || negb (dict_mem child_name (children self))
  then Err ChildNotFound
  else Ok (with_children self (dict_del child_name (children self))).

Definition get_child (self : FileSystemNode) (child_name : string)
    : option FileSystemNode :=
  dict_get child_name (children self).

Definition node_set_permissions (self : FileSystemNode) (user perm : string)
    : FileSystemNode :=
  mkNode (name self) (is_file self) (children self)
    (dict_set user perm (permissions self)).

Definition node_get_permissions (self : FileSystemNode) (user : string)
    : option string :=
  dict_get user (permissions self).

(** ** [FileSystem] *)

(** [FileSystem().root] *)
Definition init_root : FileSystemNode := mkNode "/" false [] [].

(** The loop of [_traverse], from [current]. *)
Fixpoint traverse_from (current : option FileSystemNode) (path : list string)
    : option FileSystemNode :=
  match path with
  | [] => current
  | part :: rest =>
      match current with
      | None => None
      | Some c => if is_file c then None else traverse_from (get_child c part) rest
      end
  end.

(** [_traverse(path)] *)
Definition traverse (root : FileSystemNode) (path : list string)
    : option FileSystemNode :=
  traverse_from (Some root) path.

(** Writing back a node that [traverse root path] returned and that the
    caller mutated in place. *)
Fixpoint put_at (cur : FileSystemNode) (path : list string) (n : FileSystemNode)
    : FileSystemNode :=
  match path with
  | [] => n
  | part :: rest =>
      match get_child cur part with
      | Some c => with_children cur (dict_set part (put_at c rest n) (children cur))
      | None => cur
      end
  end.

(** The loop of [create] from [current] over the remaining [parts], then its
    final type check.  [i == len(parts) - 1] holds exactly when no part is
    left after [part].  Returns the new [current] and the outcome. *)
Fixpoint create_loop (is_file_req : bool) (parts : list string)
    (current : FileSystemNode) : FileSystemNode * result unit :=
  match parts with
  | [] =>
      (current,
       if Bool.eqb (is_file current) is_file_req then Ok tt else Err PathConflict)
  | part :: rest =>
      if is_file current then (current, Err CannotCreateInsideFile) else
      match get_child current part with
      | Some child =>
          let (child', r) := create_loop is_file_req rest child in
          (with_children current (dict_set part child' (children current)), r)
      | None =>
          let new_node :=
            mkNode part (match rest with [] => is_file_req | _ => false end) [] [] in
          match add_child current new_node with
          | Err e => (current, Err e)
          | Ok current1 =>
              let (child', r) := create_loop is_file_req rest new_node in
              (with_children current1 (dict_set part child' (children current1)), r)
          end
      end
  end.

(** [create(path, is_file)] *)
Definition create (root : FileSystemNode) (path : string) (is_file_req : bool)
    : FileSystemNode * result unit :=
  create_loop is_file_req (path_parts path) root.

(** [delete(path)]; the tree is untouched when it raises. *)
Definition delete (root : FileSystemNode) (path : string) : result FileSystemNode :=
  let parts := path_parts path in
  match traverse root (removelast parts) with
  | None => Err PathNotFound
  | Some parent =>
      match remove_child parent (last parts EmptyString) with
      | Err e => Err e
      | Ok parent' => Ok (put_at root (removelast parts) parent')
      end
  end.

(** [list_directory(path)] *)
Definition list_directory (root : FileSystemNode) (path : string) : result (list string) :=
  match traverse root (path_parts path) with
  | None => Err NotADirectory
  | Some node =>
      if is_file node then Err NotADirectory else Ok (dict_keys (children node))
  end.

(** [search(name, node, path)] *)
Fixpoint search (q : string) (node : FileSystemNode) (path : string) {struct node}
    : list string :=
  match node with
  | mkNode nm f ch _ =>
      (if String.eqb nm q then [if String.eqb path "" then "/"%string else path] else [])
      ++ (if f then []
          else (fix go (l : list (string * FileSystemNode)) : list string :=
                  match l with
                  | [] => []
                  | (child_name, child_node) :: r =>
                      search q child_node (py_strip "//" (path ++ "/" ++ child_name))
                      ++ go r
                  end) ch)
  end.

(** [fs.search(name)] *)
Definition fs_search (root : FileSystemNode) (q : string) : list string :=
  search q root "".

(** [set_permissions(path, user, permissions)] *)
Definition set_permissions (root : FileSystemNode) (path user perm : string)
    : result FileSystemNode :=
  let parts := path_parts path in
  match traverse root parts with
  | None => Err PathNotFound
  | Some node => Ok (put_at root parts (node_set_permissions node user perm))
  end.

(** [get_permissions(path, user)] *)
Definition get_permissions (root : FileSystemNode) (path user : string)
    : result (option string) :=
  match traverse root (path_parts path) with
  | None => Err PathNotFound
  | Some node => Ok (node_get_permissions node user)
  end.

(** The tree of the specification's scenario: [create("dir/subdir")],
    [create("dir/subdir/file1.txt", is_file=True)],
    [create("dir/file3.txt", is_file=True)] from a fresh [FileSystem]. *)
Definition scenario : FileSystemNode :=
  fst (create (fst (create (fst (create init_root "dir/subdir" false))
                      "dir/subdir/file1.txt" true))
         "dir/file3.txt" true).

(** ** The file-node invariant: a node with [is_file = true] has no children. *)

Fixpoint files_childless (n : FileSystemNode) : Prop :=
  match n with
  | mkNode _ f ch _ =>
      (f = true -> ch = []) /\
      (fix all (l : list (string * FileSystemNode)) : Prop :=
         match l with
         | [] => True
         | (_, c) :: r => files_childless c /\ all r
         end) ch
  end.

(** ** Nodes by position, and the tree without its permissions *)

(** The node reached by following child indices (in dict order). *)
Fixpoint subtree_at (n : FileSystemNode) (pos : list nat) : option FileSystemNode :=
  match pos with
  | [] => Some n
  | i :: r =>
      match nth_error (children n) i with
      | Some (_, c) => subtree_at c r
      | None => None
      end
  end.

(** Every node with its [permissions] emptied: names, flags and children
    mappings only. *)
Fixpoint erase_permissions (n : FileSystemNode) : FileSystemNode :=
  match n with
  | mkNode nm f ch _ =>
      mkNode nm f
        ((fix go (l : list (string * FileSystemNode)) :=
            match l with
            | [] => []
            | (k, c) :: r => (k, erase_permissions c) :: go r
            end) ch) []
  end.

Definition erase_entry (kc : string * FileSystemNode) : string * FileSystemNode :=
  (fst kc, erase_permissions (snd kc)).

(** ** The paths [search] is described to return *)

(** Every node with the keys leading to it, depth first in dict order; the
    walk goes into directories only (a file contributes itself alone). *)
Fixpoint nodes_with_keys (n : FileSystemNode)
    : list (list string * FileSystemNode) :=
  match n with
  | mkNode nm f ch ps =>
      ([], mkNode nm f ch ps) ::
      (if f then []
       else (fix go (l : list (string * FileSystemNode)) :=
               match l with
               | [] => []
               | (k, c) :: r =>
                   map (fun kn => (k :: fst kn, snd kn)) (nodes_with_keys c) ++ go r
               end) ch)
  end.

(** A child name as [create] makes it from a path without empty segments. *)
Definition segment_ok (k : string) : bool :=
  negb (String.eqb k "") && negb (existsb (Ascii.eqb "/"%char) (list_ascii_of_string k)).

Definition keys_ok (t : FileSystemNode) : bool :=
  forallb (fun kn => forallb segment_ok (fst kn)) (nodes_with_keys t).

(** The keys joined by ["/"], written without a leading slash; the root
    itself is ["/"]. *)
Definition render_keys (ks : list string) : string :=
  match ks with
  | [] => "/"
  | _ => String.concat "/" ks
  end.

(** The root-relative paths of the nodes named [q], depth first. *)
Definition search_spec (t : FileSystemNode) (q : string) : list string :=
  map (fun kn => render_keys (fst kn))
    (filter (fun kn => String.eqb (name (snd kn)) q) (nodes_with_keys t)).

(** Induction over nodes with a hypothesis for every child. *)
Definition FileSystemNode_ind' (P : FileSystemNode -> Prop)
    (H : forall nm f ch ps,
         Forall (fun kc => P (snd kc)) ch -> P (mkNode nm f ch ps))
    : forall n, P n :=
  fix F n :=
    match n with
    | mkNode nm f ch ps =>
        H nm f ch ps
          ((fix G (l : list (string * FileSystemNode))
              : Forall (fun kc => P (snd kc)) l :=
              match l with
              | [] => Forall_nil _
              | (k, c) :: r => Forall_cons (k, c) (F c) (G r)
              end) ch)
    end.

(** ** [display_tree] *)

(** [display_tree(node, indent)]: the lines it prints, in order. *)
Fixpoint display_tree (node : FileSystemNode) (indent : string) {struct node}
    : list string :=
  match node with
  | mkNode nm f ch _ =>
      if f then [String.append indent (String.append "- " nm)]
      else String.append indent (String.append "+ " nm) ::
           (fix go (l : list (string * FileSystemNode)) : list string :=
              match l with
              | [] => []
              | (_, child) :: r => display_tree child (String.append indent "  ") ++ go r
              end) ch
  end.

(** [depth] levels of two-space indentation. *)
Fixpoint spaces (depth : nat) : string :=
  match depth with
  | O => ""
  | S d => String.append "  " (spaces d)
  end.

(** [n'] is [n] with possibly more children appended: same name, type and
    permissions, and the old child names first, in their old order. *)
Definition node_extends (n n' : FileSystemNode) : Prop :=
  name n' = name n /\ is_file n' = is_file n /\ permissions n' = permissions n /\
  exists extra, dict_keys (children n') = dict_keys (children n) ++ extra.

(** Every child is stored under its own name, at every level. *)
Fixpoint keys_match (n : FileSystemNode) : Prop :=
  match n with
  | mkNode _ _ ch _ =>
      (fix all (l : list (string * FileSystemNode)) : Prop :=
         match l with
         | [] => True
         | (k, c) :: r => (name c = k /\ keys_match c) /\ all r
         end) ch
  end.

(** ** Dict lemmas *)

Section DictFacts.
Context {V : Type}.
Implicit Types (d : list (string * V)) (v : V).

Lemma dict_get_set_eq k v d : dict_get k (dict_set k v d) = Some v.
Proof.
  induction d as [|[k' v'] r IH]; simpl.
  - now rewrite String.eqb_refl.
  - destruct (String.eqb k' k) eqn:E; simpl; rewrite E; auto.
Qed.

Lemma dict_get_set_neq k k' v d :
  k' <> k -> dict_get k' (dict_set k v d) = dict_get k' d.
Proof.
  intros Hne. induction d as [|[k0 v0] r IH]; simpl.
  - apply String.eqb_neq in Hne. now rewrite String.eqb_sym, Hne.
  - destruct (String.eqb k0 k) eqn:E; simpl.
    + apply String.eqb_eq in E; subst k0.
      apply String.eqb_neq in Hne. now rewrite String.eqb_sym, Hne.
    + now rewrite IH.
Qed.

Lemma dict_set_set k v1 v2 d : dict_set k v2 (dict_set k v1 d) = dict_set k v2 d.
Proof.
  induction d as [|[k' v'] r IH]; simpl.
  - now rewrite String.eqb_refl.
  - destruct (String.eqb k' k) eqn:E; simpl; rewrite E; [reflexivity|now rewrite IH].
Qed.

Lemma dict_set_same k v d : dict_get k d = Some v -> dict_set k v d = d.
Proof.
  induction d as [|[k' v'] r IH]; simpl; [discriminate|].
  destruct (String.eqb k' k) eqn:E.
  - now intros [= ->].
  - intros H. now rewrite IH.
Qed.

Lemma dict_get_del k d : dict_get k (dict_del k d) = None.
Proof.
  induction d as [|[k' v'] r IH]; simpl; [reflexivity|].
  destruct (String.eqb k' k) eqn:E; simpl; [exact IH|now rewrite E].
Qed.

Lemma dict_keys_del k d : ~ In k (dict_keys (dict_del k d)).
Proof.
  induction d as [|[k' v'] r IH]; simpl; [tauto|].
  destruct (String.eqb k' k) eqn:E; simpl; [exact IH|].
  intros [Heq|Hin]; [subst; now rewrite String.eqb_refl in E|tauto].
Qed.

Lemma dict_mem_get k d : dict_mem k d = true <-> exists v, dict_get k d = Some v.
Proof.
  unfold dict_mem. destruct (dict_get k d); split; intros H; eauto; [discriminate|].
  now destruct H.
Qed.

End DictFacts.

(** ** Traversal lemmas *)

Lemma traverse_from_None path : traverse_from None path = None.
Proof. destruct path; reflexivity. Qed.

Lemma traverse_from_app o a b :
  traverse_from o (a ++ b) = traverse_from (traverse_from o a) b.
Proof.
  revert o. induction a as [|x a IH]; intros o; simpl; [reflexivity|].
  destruct o as [c|]; [|now rewrite traverse_from_None].
  destruct (is_file c); [now rewrite traverse_from_None|apply IH].
Qed.

Lemma traverse_from_cons c part rest :
  traverse_from (Some c) (part :: rest) =
  if is_file c then None else traverse_from (get_child c part) rest.
Proof. reflexivity. Qed.

Lemma get_child_with_children_set n part c :
  get_child (with_children n (dict_set part c (children n))) part = Some c.
Proof. unfold get_child; simpl. apply dict_get_set_eq. Qed.

(** ** [create] lemmas *)

Lemma create_loop_fresh_ok X rest n :
  is_file n = match rest with [] => X | _ => false end ->
  children n = [] ->
  snd (create_loop X rest n) = Ok tt.
Proof.
  revert n. induction rest as [|part rest IH]; intros n Hf Hc; simpl.
  - rewrite Hf. now rewrite Bool.eqb_reflx.
  - rewrite Hf. unfold get_child. rewrite Hc. simpl.
    unfold add_child. rewrite Hf, Hc. simpl.
    destruct (create_loop X rest _) as [child' r] eqn:E. simpl.
    specialize (IH (mkNode part (match rest with [] => X | _ => false end) [] [])).
    rewrite E in IH. apply IH; reflexivity.
Qed.

Lemma create_loop_fail_unchanged X parts cur cur' e :
  create_loop X parts cur = (cur', Err e) -> cur' = cur.
Proof.
  revert cur cur'. induction parts as [|part rest IH]; intros cur cur' H; simpl in H.
  - destruct (Bool.eqb _ _); congruence.
  - destruct (is_file cur) eqn:Hf; [congruence|].
    destruct (get_child cur part) as [child|] eqn:Hg.
    + destruct (create_loop X rest child) as [child' r] eqn:E.
      injection H as <- ->. apply IH in E. subst child'.
      destruct cur as [nm f ch ps]. unfold with_children; simpl.
      unfold get_child in Hg; simpl in Hg. now rewrite dict_set_same.
    + destruct (add_child cur _) as [cur1|e'] eqn:Ha; [|congruence].
      destruct (create_loop X rest _) as [child' r] eqn:E.
      injection H as _ ->.
      pose proof (create_loop_fresh_ok X rest
                    (mkNode part (match rest with [] => X | _ => false end) [] []))
        as Hok.
      rewrite E in Hok. simpl in Hok. discriminate Hok; reflexivity.
Qed.

Lemma add_child_ok n c n1 :
  add_child n c = Ok n1 ->
  is_file n = false /\ n1 = with_children n (dict_set (name c) c (children n)).
Proof.
  unfold add_child. destruct (is_file n); [discriminate|].
  destruct (dict_mem _ _); [discriminate|]. now intros [= <-].
Qed.

Lemma traverse_with_child n part c rest :
  is_file n = false ->
  traverse_from (Some (with_children n (dict_set part c (children n)))) (part :: rest)
  = traverse_from (Some c) rest.
Proof.
  intros Hf. rewrite traverse_from_cons. simpl. rewrite Hf.
  unfold get_child; simpl. now rewrite dict_get_set_eq.
Qed.

(** A successful step of the loop: [current] is a directory and its child
    under [part] is replaced by the result of a successful rest of the loop. *)
Lemma create_loop_cons_ok X part rest cur cur' :
  create_loop X (part :: rest) cur = (cur', Ok tt) ->
  is_file cur = false /\
  exists child child', create_loop X rest child = (child', Ok tt) /\
    cur' = with_children cur (dict_set part child' (children cur)).
Proof.
  simpl. destruct (is_file cur) eqn:Hf; [congruence|]. intros H. split; [reflexivity|].
  destruct (get_child cur part) as [child|] eqn:Hg.
  - destruct (create_loop X rest child) as [child' r] eqn:E.
    injection H as <- ->. eauto.
  - destruct (add_child cur _) as [cur1|e] eqn:Ha; [|congruence].
    destruct (create_loop X rest _) as [child' r] eqn:E.
    injection H as <- ->. apply add_child_ok in Ha as [_ ->].
    do 2 eexists. split; [exact E|]. unfold with_children; simpl.
    now rewrite dict_set_set.
Qed.

Lemma create_loop_ok_resolves X parts cur cur' :
  create_loop X parts cur = (cur', Ok tt) ->
  option_map is_file (traverse_from (Some cur') parts) = Some X /\
  (forall k, k < length parts ->
     option_map is_file (traverse_from (Some cur') (firstn k parts)) = Some false).
Proof.
  revert cur cur'. induction parts as [|part rest IH]; intros cur cur' H.
  - simpl in H. destruct (Bool.eqb (is_file cur) X) eqn:E; [|congruence].
    injection H as <-. apply Bool.eqb_prop in E. simpl. split; [now rewrite E|].
    intros k Hk; simpl in Hk; lia.
  - apply create_loop_cons_ok in H as [Hf [child [child' [E ->]]]].
    destruct (IH _ _ E) as [IH1 IH2]. split.
    + now rewrite traverse_with_child.
    + intros [|k] Hk; simpl.
      * now rewrite Hf.
      * rewrite Hf. unfold get_child; simpl. rewrite dict_get_set_eq.
        apply IH2. simpl in Hk; lia.
Qed.

(** On a path that already resolves, [create] inserts nothing and only
    compares the type of the node found. *)
Lemma create_loop_existing X parts cur n :
  traverse_from (Some cur) parts = Some n ->
  create_loop X parts cur =
  (cur, if Bool.eqb (is_file n) X then Ok tt else Err PathConflict).
Proof.
  revert cur. induction parts as [|part rest IH]; intros cur H.
  - simpl in H. injection H as ->. reflexivity.
  - rewrite traverse_from_cons in H. simpl.
    destruct (is_file cur) eqn:Hf; [discriminate|].
    destruct (get_child cur part) as [child|] eqn:Hg;
      [|rewrite traverse_from_None in H; discriminate].
    rewrite (IH _ H). f_equal.
    destruct cur as [nm f ch ps]. unfold with_children; simpl.
    unfold get_child in Hg; simpl in Hg. now rewrite dict_set_same.
Qed.

Lemma create_loop_ok_idem X parts cur cur' :
  create_loop X parts cur = (cur', Ok tt) -> create_loop X parts cur' = (cur', Ok tt).
Proof.
  intros H. destruct (create_loop_ok_resolves _ _ _ _ H) as [H1 _].
  destruct (traverse_from (Some cur') parts) as [n|] eqn:Ht; [|discriminate].
  injection H1 as H1. rewrite (create_loop_existing X _ _ _ Ht), H1.
  now rewrite Bool.eqb_reflx.
Qed.

(** ** [delete] lemmas *)

Lemma py_split_nonempty sep s : py_split sep s <> [].
Proof.
  destruct s as [|c r]; simpl; [discriminate|].
  destruct (Ascii.eqb c sep); [discriminate|].
  destruct (py_split sep r); discriminate.
Qed.

Lemma path_parts_split p :
  path_parts p = removelast (path_parts p) ++ [last (path_parts p) EmptyString].
Proof. apply app_removelast_last, py_split_nonempty. Qed.

Lemma traverse_put_at t segs par x :
  traverse_from (Some t) segs = Some par ->
  traverse_from (Some (put_at t segs x)) segs = Some x.
Proof.
  revert t. induction segs as [|s segs IH]; intros t H; [reflexivity|].
  rewrite traverse_from_cons in H.
  destruct (is_file t) eqn:Hf; [discriminate|].
  destruct (get_child t s) as [c|] eqn:Hg; [|rewrite traverse_from_None in H; discriminate].
  cbn [put_at]. rewrite Hg. rewrite traverse_with_child by exact Hf. now apply IH.
Qed.

Lemma remove_child_present par k n :
  get_child par k = Some n ->
  remove_child par k = Ok (with_children par (dict_del k (children par))).
Proof.
  unfold remove_child, get_child. intros Hg.
  assert (Hm : dict_mem k (children par) = true) by (apply dict_mem_get; eauto).
  rewrite Hm. destruct (children par) as [|kv r]; [discriminate|reflexivity].
Qed.

Lemma remove_child_absent par k :
  dict_mem k (children par) = false -> remove_child par k = Err ChildNotFound.
Proof.
  unfold remove_child. intros Hm. rewrite Hm, orb_true_r. reflexivity.
Qed.

Lemma dict_mem_del {V} k (d : list (string * V)) : dict_mem k (dict_del k d) = false.
Proof. unfold dict_mem. now rewrite dict_get_del. Qed.

(** The node a [delete] of an existing path leaves in place of the parent. *)
Lemma delete_existing t p n :
  traverse t (path_parts p) = Some n ->
  exists par,
    traverse t (removelast (path_parts p)) = Some par /\
    is_file par = false /\
    get_child par (last (path_parts p) EmptyString) = Some n /\
    delete t p =
      Ok (put_at t (removelast (path_parts p))
            (with_children par
               (dict_del (last (path_parts p) EmptyString) (children par)))).
Proof.
  intros H. unfold traverse in H. rewrite path_parts_split, traverse_from_app in H.
  destruct (traverse_from (Some t) (removelast (path_parts p))) as [par|] eqn:Hp;
    [|discriminate].
  rewrite traverse_from_cons in H.
  destruct (is_file par) eqn:Hf; [discriminate|]. simpl in H.
  exists par. repeat split; auto.
  unfold delete. cbv zeta. unfold traverse. rewrite Hp.
  now rewrite (remove_child_present _ _ _ H).
Qed.

Lemma files_childless_eq n :
  files_childless n <->
  (is_file n = true -> children n = []) /\
  Forall (fun kc => files_childless (snd kc)) (children n).
Proof.
  destruct n as [nm f ch ps]; simpl. apply and_iff_compat_l.
  induction ch as [|[k c] r IH]; simpl.
  - split; auto.
  - rewrite Forall_cons_iff, IH. reflexivity.
Qed.

Lemma Forall_dict_set (Q : FileSystemNode -> Prop) k v d :
  Forall (fun kc => Q (snd kc)) d -> Q v -> Forall (fun kc => Q (snd kc)) (dict_set k v d).
Proof.
  intros Hd Hv. induction Hd as [|[k' v'] r Hh Hr IH]; simpl.
  - now constructor.
  - destruct (String.eqb k' k); constructor; auto.
Qed.

Lemma Forall_dict_get (Q : FileSystemNode -> Prop) k v d :
  Forall (fun kc => Q (snd kc)) d -> dict_get k d = Some v -> Q v.
Proof.
  intros Hd. induction Hd as [|[k' v'] r Hh Hr IH]; simpl; [discriminate|].
  destruct (String.eqb k' k); [now intros [= <-]|exact IH].
Qed.

Lemma dict_set_not_nil {V} k (v : V) d : dict_set k v d <> [].
Proof. destruct d as [|[k' v'] r]; simpl; [|destruct (String.eqb k' k)]; discriminate. Qed.

Lemma files_childless_set_child n part c :
  files_childless n -> is_file n = false -> files_childless c ->
  files_childless (with_children n (dict_set part c (children n))).
Proof.
  intros Hn Hf Hc. apply files_childless_eq in Hn as [_ Hall].
  apply files_childless_eq; simpl. split; [congruence|].
  now apply Forall_dict_set.
Qed.

Lemma files_childless_child n part c :
  files_childless n -> get_child n part = Some c -> files_childless c.
Proof.
  intros Hn Hg. apply files_childless_eq in Hn as [_ Hall].
  exact (Forall_dict_get files_childless _ _ _ Hall Hg).
Qed.

Lemma create_loop_files_childless X parts cur :
  files_childless cur -> files_childless (fst (create_loop X parts cur)).
Proof.
  revert cur. induction parts as [|part rest IH]; intros cur Hc; [exact Hc|].
  simpl. destruct (is_file cur) eqn:Hf; [exact Hc|].
  destruct (get_child cur part) as [child|] eqn:Hg.
  - pose proof (IH child (files_childless_child _ _ _ Hc Hg)) as Hch.
    destruct (create_loop X rest child) as [child' r]. simpl in *.
    now apply files_childless_set_child.
  - destruct (add_child cur _) as [cur1|e] eqn:Ha; [|exact Hc].
    set (new_node := mkNode part _ [] []) in *.
    assert (Hnew : files_childless new_node) by (simpl; auto).
    pose proof (IH new_node Hnew) as Hch.
    destruct (create_loop X rest new_node) as [child' r]. simpl in *.
    apply add_child_ok in Ha as [_ ->]. unfold with_children at 2. simpl.
    rewrite dict_set_set. now apply files_childless_set_child.
Qed.

Lemma put_at_files_childless t segs x :
  files_childless t -> files_childless x -> files_childless (put_at t segs x).
Proof.
  revert t. induction segs as [|s segs IH]; intros t Ht Hx; [exact Hx|].
  simpl. destruct (get_child t s) as [c|] eqn:Hg; [|exact Ht].
  assert (Hf : is_file t = false).
  { destruct (is_file t) eqn:Hf; [|reflexivity].
    apply files_childless_eq in Ht as [Hnil _]. unfold get_child in Hg.
    rewrite (Hnil Hf) in Hg. discriminate. }
  apply files_childless_set_child; auto.
  apply IH; [exact (files_childless_child _ _ _ Ht Hg)|exact Hx].
Qed.

Lemma traverse_files_childless t segs n :
  files_childless t -> traverse_from (Some t) segs = Some n -> files_childless n.
Proof.
  revert t. induction segs as [|s segs IH]; intros t Ht H.
  - now injection H as <-.
  - rewrite traverse_from_cons in H. destruct (is_file t); [discriminate|].
    destruct (get_child t s) as [c|] eqn:Hg; [|rewrite traverse_from_None in H; discriminate].
    exact (IH c (files_childless_child _ _ _ Ht Hg) H).
Qed.

Lemma remove_child_files_childless n k n' :
  files_childless n -> remove_child n k = Ok n' -> files_childless n'.
Proof.
  unfold remove_child. destruct (_ || _); [discriminate|]. intros Hn [= <-].
  apply files_childless_eq in Hn as [Hnil Hall]. apply files_childless_eq; simpl.
  split.
  - intros Hf. now rewrite (Hnil Hf).
  - unfold dict_del. rewrite Forall_forall in *. intros kv Hin. apply filter_In in Hin. now apply Hall.
Qed.

Lemma erase_permissions_eq n :
  erase_permissions n =
  mkNode (name n) (is_file n) (map erase_entry (children n)) [].
Proof.
  destruct n as [nm f ch ps]; simpl. f_equal.
  induction ch as [|[k c] r IH]; simpl; [reflexivity|]. now rewrite IH.
Qed.

Lemma map_erase_dict_set k c d :
  map erase_entry (dict_set k c d) = dict_set k (erase_permissions c) (map erase_entry d).
Proof.
  induction d as [|[k' c'] r IH]; simpl; [reflexivity|].
  destruct (String.eqb k' k); simpl; [reflexivity|now rewrite IH].
Qed.

Lemma dict_get_map_erase k c d :
  dict_get k d = Some c -> dict_get k (map erase_entry d) = Some (erase_permissions c).
Proof.
  induction d as [|[k' c'] r IH]; simpl; [discriminate|].
  destruct (String.eqb k' k); [now intros [= <-]|exact IH].
Qed.

Lemma dict_get_index {V} k (v : V) d :
  dict_get k d = Some v ->
  exists i, nth_error d i = Some (k, v) /\
    (forall v', nth_error (dict_set k v' d) i = Some (k, v')) /\
    (forall v' j, j <> i -> nth_error (dict_set k v' d) j = nth_error d j).
Proof.
  induction d as [|[k' v0] r IH]; simpl; [discriminate|].
  destruct (String.eqb k' k) eqn:E.
  - apply String.eqb_eq in E; subst k'. intros [= ->].
    exists 0. repeat split. intros v' [|j] Hj; [lia|reflexivity].
  - intros H. destruct (IH H) as [i [Hi [Hs Ho]]].
    exists (S i). repeat split; [exact Hi|exact Hs|].
    intros v' [|j] Hj; [reflexivity|]. apply Ho. lia.
Qed.

(** Writing back, at a resolved path, a node with the same children: only
    that position changes, and only in fields other than the children. *)
Lemma put_at_frame t segs n x :
  traverse_from (Some t) segs = Some n ->
  children x = children n ->
  exists pos,
    subtree_at t pos = Some n /\
    subtree_at (put_at t segs x) pos = Some x /\
    (forall pos', pos' <> pos ->
       option_map permissions (subtree_at (put_at t segs x) pos') =
       option_map permissions (subtree_at t pos')) /\
    (erase_permissions x = erase_permissions n ->
       erase_permissions (put_at t segs x) = erase_permissions t).
Proof.
  intros Ht Hch. revert t Ht. induction segs as [|s segs IH]; intros t Ht.
  - injection Ht as <-. exists []. simpl. repeat split; auto.
    intros [|i r] Hne; [congruence|]. simpl. now rewrite Hch.
  - rewrite traverse_from_cons in Ht.
    destruct (is_file t) eqn:Hf; [discriminate|].
    destruct (get_child t s) as [c|] eqn:Hg;
      [|rewrite traverse_from_None in Ht; discriminate].
    destruct (IH c Ht) as [pc [H1 [H2 [H3 H4]]]].
    destruct (dict_get_index _ _ _ Hg) as [i [Hi [Hs Ho]]].
    exists (i :: pc). cbn [put_at]. rewrite Hg. repeat split.
    + simpl. now rewrite Hi.
    + simpl. now rewrite Hs.
    + intros [|j r] Hne; [reflexivity|]. simpl.
      destruct (Nat.eq_dec j i) as [->|Hji].
      * rewrite Hs, Hi. apply H3. congruence.
      * now rewrite (Ho _ _ Hji).
    + intros He. rewrite !erase_permissions_eq. simpl. f_equal.
      rewrite map_erase_dict_set, (H4 He).
      apply dict_set_same, dict_get_map_erase, Hg.
Qed.

(** ** String lemmas for the paths of [search] *)

Lemma list_ascii_append s1 s2 :
  list_ascii_of_string (String.append s1 s2) =
  list_ascii_of_string s1 ++ list_ascii_of_string s2.
Proof. induction s1 as [|c s1 IH]; simpl; [reflexivity|now rewrite IH]. Qed.

Lemma char_in_slashes c : char_in c "//" = Ascii.eqb c "/".
Proof. unfold char_in; simpl. now destruct (Ascii.eqb c "/"). Qed.

Definition head_not_slash (l : list ascii) : Prop :=
  forall c, hd_error l = Some c -> Ascii.eqb c "/" = false.

Lemma drop_slashes_noop l : head_not_slash l -> drop_chars "//" l = l.
Proof.
  intros H. destruct l as [|c m]; [reflexivity|]. cbn [drop_chars].
  rewrite char_in_slashes, (H c eq_refl). reflexivity.
Qed.

Lemma strip_slashes_noop l :
  head_not_slash l -> head_not_slash (rev l) ->
  py_strip "//" (string_of_list_ascii l) = string_of_list_ascii l.
Proof.
  intros H1 H2. unfold py_strip. rewrite list_ascii_of_string_of_list_ascii.
  rewrite (drop_slashes_noop _ H1), (drop_slashes_noop _ H2), rev_involutive.
  reflexivity.
Qed.

Lemma hd_error_In {A} (l : list A) c : hd_error l = Some c -> In c l.
Proof. destruct l; simpl; [discriminate|]. intros [= ->]. now left. Qed.

Lemma segment_ok_spec k :
  segment_ok k = true ->
  list_ascii_of_string k <> [] /\
  (forall c, In c (list_ascii_of_string k) -> Ascii.eqb c "/" = false).
Proof.
  unfold segment_ok. intros H. apply andb_prop in H as [H1 H2].
  apply negb_true_iff in H1, H2. split.
  - destruct k; [discriminate|simpl; discriminate].
  - intros c Hin. destruct (Ascii.eqb c "/") eqn:E; [|reflexivity].
    apply Ascii.eqb_eq in E; subst c.
    assert (existsb (Ascii.eqb "/") (list_ascii_of_string k) = true) as Hc
      by (apply existsb_exists; exists "/"%char; split; [exact Hin|apply Ascii.eqb_refl]).
    congruence.
Qed.

Lemma segment_ok_ends k :
  segment_ok k = true ->
  list_ascii_of_string k <> [] /\
  head_not_slash (list_ascii_of_string k) /\
  head_not_slash (rev (list_ascii_of_string k)).
Proof.
  intros H. destruct (segment_ok_spec k H) as [Hne Hall].
  repeat split; [exact Hne| |]; intros c Hc; apply Hall.
  - now apply hd_error_In.
  - apply in_rev. now apply hd_error_In.
Qed.

Lemma concat_head a r :
  exists x, list_ascii_of_string (String.concat "/" (a :: r)) =
            list_ascii_of_string a ++ x.
Proof.
  destruct r as [|b r].
  - exists []. now rewrite app_nil_r.
  - eexists. cbn [String.concat]. apply list_ascii_append.
Qed.

Lemma concat_snoc ks k :
  ks <> [] ->
  list_ascii_of_string (String.concat "/" (ks ++ [k])) =
  list_ascii_of_string (String.concat "/" ks) ++ "/"%char :: list_ascii_of_string k.
Proof.
  induction ks as [|a r IH]; intros Hne; [congruence|].
  destruct r as [|b r].
  - simpl. now rewrite list_ascii_append.
  - assert (E1 : String.concat "/" ((a :: b :: r) ++ [k]) =
                 String.append a (String.append "/" (String.concat "/" ((b :: r) ++ [k]))))
      by reflexivity.
    assert (E2 : String.concat "/" (a :: b :: r) =
                 String.append a (String.append "/" (String.concat "/" (b :: r))))
      by reflexivity.
    rewrite E1, E2, !list_ascii_append, IH by discriminate. simpl.
    now rewrite <- app_assoc.
Qed.

Lemma concat_ends ks :
  ks <> [] -> forallb segment_ok ks = true ->
  head_not_slash (list_ascii_of_string (String.concat "/" ks)) /\
  list_ascii_of_string (String.concat "/" ks) <> [].
Proof.
  destruct ks as [|a r]; [congruence|]. intros _ H. simpl in H.
  apply andb_prop in H as [Ha _]. destruct (segment_ok_ends a Ha) as [Hne [Hh _]].
  destruct (concat_head a r) as [x ->].
  destruct (list_ascii_of_string a) as [|c m]; [congruence|]. split; [exact Hh|discriminate].
Qed.

(** Joining one more segment: [f"{path}/{child_name}".strip("//")]. *)
Lemma strip_join ks k :
  forallb segment_ok ks = true -> segment_ok k = true ->
  py_strip "//" (String.append (String.concat "/" ks) (String.append "/" k)) =
  String.concat "/" (ks ++ [k]).
Proof.
  intros Hks Hk. destruct (segment_ok_ends k Hk) as [Hne [Hh Hr]].
  destruct ks as [|a r].
  - simpl. unfold py_strip. cbn [list_ascii_of_string drop_chars].
    rewrite char_in_slashes. simpl Ascii.eqb. cbv iota.
    rewrite (drop_slashes_noop _ Hh), (drop_slashes_noop _ Hr), rev_involutive.
    apply string_of_list_ascii_of_string.
  - rewrite <- (string_of_list_ascii_of_string (String.concat "/" ((a :: r) ++ [k]))).
    rewrite concat_snoc by discriminate.
    rewrite <- (string_of_list_ascii_of_string (String.append _ _)).
    rewrite !list_ascii_append. simpl (list_ascii_of_string "/").
    destruct (concat_ends (a :: r) ltac:(discriminate) Hks) as [Hh' Hne'].
    apply strip_slashes_noop.
    + destruct (list_ascii_of_string (String.concat "/" (a :: r))); [congruence|exact Hh'].
    + rewrite rev_app_distr. simpl. rewrite <- app_assoc.
      destruct (rev (list_ascii_of_string k)) eqn:E.
      * apply (f_equal (@rev ascii)) in E. rewrite rev_involutive in E. simpl in E. congruence.
      * exact Hr.
Qed.

(** ** [search] against [search_spec] *)

Lemma search_eq q nm f ch ps path :
  search q (mkNode nm f ch ps) path =
  (if String.eqb nm q then [if String.eqb path "" then "/"%string else path] else [])
  ++ (if f then []
      else flat_map (fun kc => search q (snd kc)
                                 (py_strip "//" (String.append path (String.append "/" (fst kc))))) ch).
Proof.
  simpl. f_equal. destruct f; [reflexivity|].
  induction ch as [|[k c] r IH]; simpl; [reflexivity|]. now rewrite IH.
Qed.

Lemma nodes_with_keys_eq nm f ch ps :
  nodes_with_keys (mkNode nm f ch ps) =
  ([], mkNode nm f ch ps) ::
  (if f then []
   else flat_map (fun kc => map (fun kn => (fst kc :: fst kn, snd kn))
                              (nodes_with_keys (snd kc))) ch).
Proof.
  simpl. f_equal. destruct f; [reflexivity|].
  induction ch as [|[k c] r IH]; simpl; [reflexivity|]. now rewrite IH.
Qed.

Lemma nodes_with_keys_head n : exists rest, nodes_with_keys n = ([], n) :: rest.
Proof. destruct n as [nm f ch ps]. rewrite nodes_with_keys_eq. eauto. Qed.

Lemma keys_ok_cons nm ch k c ps :
  keys_ok (mkNode nm false ((k, c) :: ch) ps) = true ->
  segment_ok k = true /\ keys_ok c = true /\ keys_ok (mkNode nm false ch ps) = true.
Proof.
  unfold keys_ok. rewrite !nodes_with_keys_eq. simpl.
  rewrite forallb_app. intros H. apply andb_prop in H as [H1 H2].
  destruct (nodes_with_keys_head c) as [rest Hr]. rewrite Hr in *. simpl in H1.
  apply andb_prop in H1 as [Hk H1]. rewrite andb_true_r in Hk.
  repeat split; [exact Hk| |exact H2].
  simpl. clear -H1. induction rest as [|kn rest IH]; simpl in *; [reflexivity|].
  apply andb_prop in H1 as [Ha Hb]. apply andb_prop in Ha as [_ Ha].
  rewrite Ha. simpl. now apply IH.
Qed.

Lemma render_keys_concat ks :
  forallb segment_ok ks = true ->
  render_keys ks =
  (if String.eqb (String.concat "/" ks) "" then "/"%string else String.concat "/" ks).
Proof.
  destruct ks as [|a r]; [reflexivity|]. intros H.
  destruct (concat_ends (a :: r) ltac:(discriminate) H) as [_ Hne].
  destruct (String.eqb (String.concat "/" (a :: r)) "") eqn:E.
  - apply String.eqb_eq in E. rewrite E in Hne. simpl in Hne. congruence.
  - reflexivity.
Qed.

Lemma render_prepend q ks k l :
  map (fun kn => render_keys (ks ++ fst kn))
    (filter (fun kn => String.eqb (name (snd kn)) q)
       (map (fun kn => (k :: fst kn, snd kn)) l)) =
  map (fun kn => render_keys ((ks ++ [k]) ++ fst kn))
    (filter (fun kn => String.eqb (name (snd kn)) q) l).
Proof.
  induction l as [|[ks' n] l IH]; simpl; [reflexivity|].
  destruct (String.eqb (name n) q); simpl; rewrite IH; [|reflexivity].
  now rewrite <- app_assoc.
Qed.

Lemma search_from_keys q n ks :
  forallb segment_ok ks = true -> keys_ok n = true ->
  search q n (String.concat "/" ks) =
  map (fun kn => render_keys (ks ++ fst kn))
    (filter (fun kn => String.eqb (name (snd kn)) q) (nodes_with_keys n)).
Proof.
  revert ks. induction n as [nm f ch ps IH] using FileSystemNode_ind'.
  intros ks Hks Hn. rewrite search_eq, nodes_with_keys_eq.
  cbn [filter snd name fst].
  assert (Hch :
    (if f then []
     else flat_map (fun kc => search q (snd kc)
            (py_strip "//" (String.append (String.concat "/" ks)
                              (String.append "/" (fst kc))))) ch) =
    map (fun kn => render_keys (ks ++ fst kn))
      (filter (fun kn => String.eqb (name (snd kn)) q)
         (if f then []
          else flat_map (fun kc => map (fun kn => (fst kc :: fst kn, snd kn))
                                     (nodes_with_keys (snd kc))) ch))).
  { destruct f; [reflexivity|].
    induction ch as [|[k c] r IHr]; [reflexivity|].
    apply keys_ok_cons in Hn as [Hk [Hc Hr]].
    inversion IH as [|? ? IHc IHrest]; subst.
    cbn [flat_map fst snd]. rewrite filter_app, map_app.
    rewrite strip_join by assumption.
    rewrite IHc; [|rewrite forallb_app, Hks; simpl; now rewrite Hk|exact Hc].
    rewrite render_prepend. f_equal. now apply IHr. }
  destruct (String.eqb nm q); cbn [map app].
  - rewrite app_nil_r, (render_keys_concat ks Hks). f_equal. exact Hch.
  - exact Hch.
Qed.

(** * The claims *)

(** ** C1 *)

(** C1 (counterexample): in the scenario tree, [search("file1.txt")]
    returns ["dir/subdir/file1.txt"], without the leading slash, not
    ["/dir/subdir/file1.txt"]. *)
Lemma search_scenario_no_leading_slash :
  fs_search scenario "file1.txt" = ["dir/subdir/file1.txt"%string] /\
  fs_search scenario "file1.txt" <> ["/dir/subdir/file1.txt"%string].
Proof. vm_compute. split; [reflexivity|discriminate]. Qed.

(** C1 (amended): on a tree whose child names are non-empty and hold no
    ["/"], [search(name)] returns, depth first in insertion order, the path of
    every node named [name]: ["/"] for the root, the child names joined by
    ["/"] with no leading slash for any other node.  In the scenario tree,
    [search("file1.txt")] is [["dir/subdir/file1.txt"]]. *)
Theorem search_returns_relative_paths :
  (forall t q, keys_ok t = true -> fs_search t q = search_spec t q) /\
  fs_search scenario "file1.txt" = ["dir/subdir/file1.txt"%string].
Proof.
  split.
  - intros t q Ht. exact (search_from_keys q t [] eq_refl Ht).
  - vm_compute. reflexivity.
Qed.

Lemma search_returns_relative_paths_witness :
  keys_ok scenario = true /\
  fs_search scenario "dir" = search_spec scenario "dir" /\
  fs_search scenario "file1.txt" = ["dir/subdir/file1.txt"%string].
Proof.
  assert (H : keys_ok scenario = true) by (vm_compute; reflexivity).
  split; [exact H|]. split.
  - exact (proj1 search_returns_relative_paths scenario "dir"%string H).
  - exact (proj2 search_returns_relative_paths).
Defined.

(** ** C2 *)

(** C2 (code bug): ["/"] and [""] both parse to [[""]], so
    [list_directory] looks up a child of the root named [""] instead of the
    root: on a fresh tree and on the scenario tree, whose root lists
    ["dir"], [list_directory("/")] (the default argument) and
    [list_directory("")] raise "Path is not a directory.". *)
Theorem list_directory_root_path :
  path_parts "/" = [""%string] /\ path_parts "" = [""%string] /\
  (forall t, list_directory t "/" =
             match get_child t "" with
             | Some n => if is_file t || is_file n then Err NotADirectory
                         else Ok (dict_keys (children n))
             | None => Err NotADirectory
             end) /\
  list_directory init_root "/" = Err NotADirectory /\
  list_directory init_root "" = Err NotADirectory /\
  dict_keys (children scenario) = ["dir"%string] /\
  list_directory scenario "/" = Err NotADirectory /\
  list_directory scenario "" = Err NotADirectory.
Proof.
  repeat split; try (vm_compute; reflexivity).
  intros t. unfold list_directory, traverse.
  change (path_parts "/") with [""%string]. simpl.
  destruct (is_file t), (get_child t ""); reflexivity.
Qed.

(** ** C3 *)

(** C3 (code bug): [create("")] and [create("/", is_file=True)] on a fresh
    tree succeed by inserting a child named [""] under the root. *)
Theorem create_root_path_inserts_empty_child :
  create init_root "" false =
    (mkNode "/" false [(""%string, mkNode "" false [] [])] [], Ok tt) /\
  create init_root "/" true =
    (mkNode "/" false [(""%string, mkNode "" true [] [])] [], Ok tt).
Proof. split; vm_compute; reflexivity. Qed.

(** ** C4 *)

(** C4: after [create(p, is_file=X)] succeeds, traversing [p] reaches a node
    whose [is_file] is [X], and every proper prefix of [p] (each
    intermediate segment) reaches a directory. *)
Theorem create_then_traverse t p X t'
    (H : create t p X = (t', Ok tt)) :
  option_map is_file (traverse t' (path_parts p)) = Some X /\
  (forall k, k < length (path_parts p) ->
     option_map is_file (traverse t' (firstn k (path_parts p))) = Some false).
Proof. exact (create_loop_ok_resolves X _ t t' H). Qed.

Lemma create_then_traverse_witness :
  create init_root "dir/subdir/file1.txt" true =
    (fst (create init_root "dir/subdir/file1.txt" true), Ok tt) /\
  option_map is_file
    (traverse (fst (create init_root "dir/subdir/file1.txt" true))
       (path_parts "dir/subdir/file1.txt")) = Some true.
Proof.
  assert (H : create init_root "dir/subdir/file1.txt" true =
              (fst (create init_root "dir/subdir/file1.txt" true), Ok tt))
    by (vm_compute; reflexivity).
  split; [exact H|].
  exact (proj1 (create_then_traverse _ _ _ _ H)).
Defined.

(** ** C5 *)

(** C5: running [create(p, is_file=X)] a second time on the tree the first
    call left gives back that tree and the first call's outcome; in
    particular, once [create(p)] of a directory has succeeded, a second call
    succeeds and changes nothing. *)
Theorem create_idempotent t p X :
  create (fst (create t p X)) p X = create t p X.
Proof.
  unfold create. destruct (create_loop X (path_parts p) t) as [t1 r] eqn:E.
  simpl. destruct r as [[]|e].
  - exact (create_loop_ok_idem _ _ _ _ E).
  - pose proof (create_loop_fail_unchanged _ _ _ _ _ E) as ->. exact E.
Qed.

(** ** C6 *)

(** C6: where [p] already resolves to a file, [create(p, is_file=True)]
    succeeds and changes nothing while [create(p, is_file=False)] fails with
    the path-conflict error (kind TypeConflict) and changes nothing; where
    [p] resolves to a directory, [create(p, is_file=True)] fails the same
    way. *)
Theorem create_existing_type_conflict t p n
    (H : traverse t (path_parts p) = Some n) :
  kind PathConflict = TypeConflict /\
  (is_file n = true ->
     create t p true = (t, Ok tt) /\ create t p false = (t, Err PathConflict)) /\
  (is_file n = false -> create t p true = (t, Err PathConflict)).
Proof.
  unfold create. split; [reflexivity|]. split.
  - intros Hf. rewrite !(create_loop_existing _ _ _ _ H), Hf. split; reflexivity.
  - intros Hf. rewrite (create_loop_existing _ _ _ _ H), Hf. reflexivity.
Qed.

Lemma create_existing_type_conflict_witness :
  traverse scenario (path_parts "dir/subdir/file1.txt") =
    Some (mkNode "file1.txt" true [] []) /\
  create scenario "dir/subdir/file1.txt" false = (scenario, Err PathConflict).
Proof.
  assert (H : traverse scenario (path_parts "dir/subdir/file1.txt") =
              Some (mkNode "file1.txt" true [] [])) by (vm_compute; reflexivity).
  split; [exact H|].
  exact (proj2 (proj1 (proj2 (create_existing_type_conflict _ _ _ H)) eq_refl)).
Defined.

(** ** C7 *)

Lemma create_fail_unchanged t p X e :
  snd (create t p X) = Err e -> fst (create t p X) = t.
Proof.
  unfold create. destruct (create_loop X (path_parts p) t) as [t1 r] eqn:E.
  simpl. intros ->. exact (create_loop_fail_unchanged _ _ _ _ _ E).
Qed.

(** C7 (counterexample): no failing call of [create] leaves the tree
    modified.  A node is inserted only where the path stops resolving;
    everything after it is then new, so the call cannot fail. *)
Lemma create_never_partial :
  ~ (exists t p X e, snd (create t p X) = Err e /\ fst (create t p X) <> t).
Proof.
  intros [t [p [X [e [H1 H2]]]]]. exact (H2 (create_fail_unchanged t p X e H1)).
Qed.

(** C7 (amended): [create] is atomic on failure: when it fails (with the
    path-conflict or the inside-a-file error) the tree is exactly as
    before, so no intermediate directory is left behind. *)
Theorem create_failure_atomic t p X e
    (H : snd (create t p X) = Err e) :
  fst (create t p X) = t.
Proof. exact (create_fail_unchanged t p X e H). Qed.

Lemma create_failure_atomic_witness :
  snd (create scenario "dir/file3.txt/new/deep" false) = Err CannotCreateInsideFile /\
  fst (create scenario "dir/file3.txt/new/deep" false) = scenario.
Proof.
  assert (H : snd (create scenario "dir/file3.txt/new/deep" false) =
              Err CannotCreateInsideFile) by (vm_compute; reflexivity).
  split; [exact H|]. exact (create_failure_atomic _ _ _ _ H).
Defined.

(** ** C8 *)

(** C8: [delete(p)] of an existing [p] succeeds; in the new tree the parent
    path still resolves to a directory whose children, as [list_directory]
    of any path naming that parent returns them, lack [p]'s basename; [p]
    and everything below it no longer resolve; a second [delete(p)] fails
    with the child-not-found error (kind NotFound).  When the parent path
    does not resolve, [delete(p)] fails with the path-not-found error (kind
    NotFound). *)
Theorem delete_removes_subtree t p :
  (traverse t (removelast (path_parts p)) = None ->
     delete t p = Err PathNotFound /\ kind PathNotFound = NotFound) /\
  (forall n, traverse t (path_parts p) = Some n ->
   exists t',
     delete t p = Ok t' /\
     (exists par',
        traverse t' (removelast (path_parts p)) = Some par' /\
        is_file par' = false /\
        ~ In (last (path_parts p) EmptyString) (dict_keys (children par')) /\
        (forall q, path_parts q = removelast (path_parts p) ->
           list_directory t' q = Ok (dict_keys (children par')))) /\
     (forall rest, traverse t' (path_parts p ++ rest) = None) /\
     delete t' p = Err ChildNotFound /\ kind ChildNotFound = NotFound).
Proof.
  split.
  - intros H. unfold delete. cbv zeta. rewrite H. split; reflexivity.
  - intros n H.
    destruct (delete_existing t p n H) as [par [Hp [Hf [Hg Hd]]]].
    set (segs := removelast (path_parts p)) in *.
    set (base := last (path_parts p) EmptyString) in *.
    set (par' := with_children par (dict_del base (children par))).
    assert (Ht' : traverse (put_at t segs par') segs = Some par')
      by exact (traverse_put_at t segs par par' Hp).
    assert (Hf' : is_file par' = false) by exact Hf.
    assert (Hg' : get_child par' base = None)
      by (unfold get_child; simpl; apply dict_get_del).
    exists (put_at t segs par'). split; [exact Hd|]. split; [|split; [|split]].
    + exists par'. split; [exact Ht'|]. split; [exact Hf'|]. split.
      * apply dict_keys_del.
      * intros q Hq. unfold list_directory. rewrite Hq, Ht'. cbv beta iota. rewrite Hf'. reflexivity.
    + intros rest. unfold traverse.
      rewrite path_parts_split. fold segs base.
      rewrite <- app_assoc, traverse_from_app. unfold traverse in Ht'. rewrite Ht'.
      cbn [app]. rewrite traverse_from_cons, Hf', Hg'. apply traverse_from_None.
    + unfold delete. cbv zeta. fold segs base. rewrite Ht'.
      rewrite remove_child_absent; [reflexivity|].
      simpl. apply dict_mem_del.
    + reflexivity.
Qed.

Lemma delete_removes_subtree_witness :
  traverse scenario (path_parts "dir/subdir") =
    Some (mkNode "subdir" false
            [("file1.txt"%string, mkNode "file1.txt" true [] [])] []) /\
  exists t', delete scenario "dir/subdir" = Ok t' /\
             delete t' "dir/subdir" = Err ChildNotFound.
Proof.
  assert (H : traverse scenario (path_parts "dir/subdir") =
              Some (mkNode "subdir" false
                      [("file1.txt"%string, mkNode "file1.txt" true [] [])] []))
    by (vm_compute; reflexivity).
  split; [exact H|].
  destruct (proj2 (delete_removes_subtree scenario "dir/subdir") _ H)
    as [t' [Hd [_ [_ [Hd2 _]]]]].
  exists t'. split; [exact Hd|exact Hd2].
Defined.

(** ** C9 *)

(** C9: a file node never has children.  The fresh root satisfies it,
    [create], [delete], [set_permissions] (of the tree and of a node),
    [add_child] and [remove_child] keep it, and [add_child] on a file fails
    with the inside-a-file error (kind InvalidOperation) instead of
    returning a changed node.  [list_directory], [search] and
    [get_permissions] return no tree, so they change nothing. *)
Theorem files_stay_childless :
  files_childless init_root /\
  (forall t p X, files_childless t -> files_childless (fst (create t p X))) /\
  (forall t p t', files_childless t -> delete t p = Ok t' -> files_childless t') /\
  (forall t p u v t',
     files_childless t -> set_permissions t p u v = Ok t' -> files_childless t') /\
  (forall n c, is_file n = true ->
     add_child n c = Err CannotAddToFile /\ kind CannotAddToFile = InvalidOperation) /\
  (forall n c n', files_childless n -> files_childless c ->
     add_child n c = Ok n' -> files_childless n') /\
  (forall n k n', files_childless n -> remove_child n k = Ok n' -> files_childless n') /\
  (forall n u v, files_childless n -> files_childless (node_set_permissions n u v)).
Proof.
  assert (Hperm : forall n u v, files_childless n ->
                  files_childless (node_set_permissions n u v)).
  { intros n u v Hn. apply files_childless_eq in Hn. apply files_childless_eq. exact Hn. }
  split; [simpl; split; [discriminate|exact I]|].
  split; [intros t p X Ht; apply create_loop_files_childless, Ht|].
  split.
  { intros t p t' Ht Hd. unfold delete in Hd. cbv zeta in Hd.
    destruct (traverse t _) as [par|] eqn:Hp; [|discriminate].
    destruct (remove_child par _) as [par'|e] eqn:Hr; [|discriminate].
    injection Hd as <-. apply put_at_files_childless; [exact Ht|].
    exact (remove_child_files_childless _ _ _ (traverse_files_childless _ _ _ Ht Hp) Hr). }
  split.
  { intros t p u v t' Ht Hs. unfold set_permissions in Hs. cbv zeta in Hs.
    destruct (traverse t _) as [n|] eqn:Hp; [|discriminate].
    injection Hs as <-. apply put_at_files_childless; [exact Ht|].
    exact (Hperm _ _ _ (traverse_files_childless _ _ _ Ht Hp)). }
  split; [intros n c Hf; unfold add_child; rewrite Hf; split; reflexivity|].
  split.
  { intros n c n' Hn Hc Ha. apply add_child_ok in Ha as [Hf ->].
    now apply files_childless_set_child. }
  split; [exact remove_child_files_childless|exact Hperm].
Qed.

Lemma files_stay_childless_witness :
  files_childless scenario /\
  files_childless (fst (create scenario "dir/file3.txt/x" false)) /\
  add_child (mkNode "file3.txt" true [] []) (mkNode "x" false [] []) =
    Err CannotAddToFile.
Proof.
  assert (H0 : files_childless init_root) by exact (proj1 files_stay_childless).
  assert (Hc := proj1 (proj2 files_stay_childless)).
  assert (H1 : files_childless scenario)
    by (unfold scenario; apply Hc, Hc, Hc, H0).
  split; [exact H1|]. split; [exact (Hc _ _ _ H1)|].
  exact (proj1 (proj1 (proj2 (proj2 (proj2 (proj2 files_stay_childless))))
                  (mkNode "file3.txt" true [] []) (mkNode "x" false [] []) eq_refl)).
Defined.

(** ** C10 *)

(** C10: a successful [set_permissions(path, user, perm)] changes one
    node, the one [path] resolves to, and only its entry for [user]: the
    tree with permissions erased is the same, that node keeps its name, type
    and children and reads [perm] for [user] and its old entry for every
    other user, and the node at every other position keeps its
    permissions. *)
Theorem set_permissions_frame t p u v t'
    (H : set_permissions t p u v = Ok t') :
  erase_permissions t' = erase_permissions t /\
  exists pos n n',
    traverse t (path_parts p) = Some n /\
    subtree_at t pos = Some n /\ subtree_at t' pos = Some n' /\
    name n' = name n /\ is_file n' = is_file n /\ children n' = children n /\
    dict_get u (permissions n') = Some v /\
    (forall u', u' <> u -> dict_get u' (permissions n') = dict_get u' (permissions n)) /\
    (forall pos', pos' <> pos ->
       option_map permissions (subtree_at t' pos') =
       option_map permissions (subtree_at t pos')).
Proof.
  unfold set_permissions in H. cbv zeta in H.
  destruct (traverse t (path_parts p)) as [n|] eqn:Ht; [|discriminate].
  injection H as <-.
  destruct (put_at_frame t (path_parts p) n (node_set_permissions n u v) Ht eq_refl)
    as [pos [H1 [H2 [H3 H4]]]].
  split.
  - apply H4. rewrite !erase_permissions_eq. reflexivity.
  - exists pos, n, (node_set_permissions n u v).
    repeat split; auto; simpl.
    + apply dict_get_set_eq.
    + intros u' Hu. now apply dict_get_set_neq.
Qed.

Lemma set_permissions_frame_witness :
  exists t', set_permissions scenario "dir/subdir/file1.txt" "user1" "rwx" = Ok t' /\
             erase_permissions t' = erase_permissions scenario /\
             get_permissions t' "dir/subdir/file1.txt" "user1" = Ok (Some "rwx"%string).
Proof.
  set (t0 := match set_permissions scenario "dir/subdir/file1.txt" "user1" "rwx" with
             | Ok t => t | Err _ => scenario end).
  assert (H : set_permissions scenario "dir/subdir/file1.txt" "user1" "rwx" = Ok t0)
    by (vm_compute; reflexivity).
  exists t0. split; [exact H|]. split.
  - exact (proj1 (set_permissions_frame _ _ _ _ _ H)).
  - vm_compute. reflexivity.
Defined.

(** * Further properties of the code *)

(** ** Permissions read back *)

Lemma get_permissions_via t q u :
  get_permissions t q u =
  match option_map permissions (traverse t (path_parts q)) with
  | None => Err PathNotFound
  | Some ps => Ok (dict_get u ps)
  end.
Proof. unfold get_permissions. now destruct (traverse t (path_parts q)). Qed.

(** Writing back a node with the same type and children leaves the
    permissions seen along any other path unchanged. *)
Lemma traverse_put_at_other t segs n x q :
  traverse_from (Some t) segs = Some n ->
  is_file x = is_file n -> children x = children n -> q <> segs ->
  option_map permissions (traverse_from (Some (put_at t segs x)) q) =
  option_map permissions (traverse_from (Some t) q).
Proof.
  intros Ht Hf Hc. revert t q Ht.
  induction segs as [|s segs IH]; intros t q Ht Hq.
  - injection Ht as <-. destruct q as [|k q]; [congruence|].
    cbn [put_at]. rewrite !traverse_from_cons, Hf. unfold get_child. now rewrite Hc.
  - rewrite traverse_from_cons in Ht.
    destruct (is_file t) eqn:Ft; [discriminate|].
    destruct (get_child t s) as [c|] eqn:Hg; [|rewrite traverse_from_None in Ht; discriminate].
    cbn [put_at]. rewrite Hg. destruct q as [|k q]; [reflexivity|].
    rewrite !traverse_from_cons. simpl is_file. rewrite Ft.
    destruct (String.eqb_spec k s) as [->|Hks].
    + rewrite get_child_with_children_set, Hg. apply IH; [exact Ht|congruence].
    + assert (E : get_child (with_children t (dict_set s (put_at c segs x) (children t))) k
                  = get_child t k)
        by (unfold get_child; simpl; now apply dict_get_set_neq).
      now rewrite E.
Qed.

(** [get_permissions] after [set_permissions] on the same path reads the
    value just written for that user and the old value for any other user. *)
Theorem get_after_set_permissions t p u v t'
    (H : set_permissions t p u v = Ok t') :
  get_permissions t' p u = Ok (Some v) /\
  (forall u', u' <> u -> get_permissions t' p u' = get_permissions t p u').
Proof.
  unfold set_permissions in H. cbv zeta in H.
  destruct (traverse t (path_parts p)) as [n|] eqn:Ht; [|discriminate].
  injection H as <-. unfold get_permissions.
  assert (Ht' : traverse (put_at t (path_parts p) (node_set_permissions n u v))
                  (path_parts p) = Some (node_set_permissions n u v))
    by exact (traverse_put_at _ _ _ _ Ht).
  rewrite Ht', Ht.
  unfold node_get_permissions, node_set_permissions. cbn [permissions]. split.
  - now rewrite dict_get_set_eq.
  - intros u' Hu. now rewrite dict_get_set_neq.
Qed.

Lemma get_after_set_permissions_witness :
  exists t', set_permissions scenario "dir/subdir/file1.txt" "user1" "rwx" = Ok t' /\
    get_permissions t' "dir/subdir/file1.txt" "user1" = Ok (Some "rwx"%string) /\
    get_permissions t' "dir/subdir/file1.txt" "user2" = Ok None.
Proof.
  set (t0 := match set_permissions scenario "dir/subdir/file1.txt" "user1" "rwx" with
             | Ok t => t | Err _ => scenario end).
  assert (H : set_permissions scenario "dir/subdir/file1.txt" "user1" "rwx" = Ok t0)
    by (vm_compute; reflexivity).
  exists t0. split; [exact H|]. split.
  - exact (proj1 (get_after_set_permissions _ _ _ _ _ H)).
  - rewrite (proj2 (get_after_set_permissions _ _ _ _ _ H)) by (vm_compute; discriminate).
    vm_compute. reflexivity.
Defined.

(** [set_permissions] on one path leaves what [get_permissions] reads on
    every path that parses differently, for every user. *)
Theorem set_permissions_other_paths t p q u v t'
    (H : set_permissions t p u v = Ok t')
    (Hq : path_parts q <> path_parts p) :
  forall u', get_permissions t' q u' = get_permissions t q u'.
Proof.
  intros u'. unfold set_permissions in H. cbv zeta in H.
  destruct (traverse t (path_parts p)) as [n|] eqn:Ht; [|discriminate].
  injection H as <-. rewrite !get_permissions_via. unfold traverse.
  rewrite (traverse_put_at_other _ _ n); auto.
Qed.

Lemma set_permissions_other_paths_witness :
  exists t', set_permissions scenario "dir/subdir/file1.txt" "user1" "rwx" = Ok t' /\
    path_parts "dir/subdir" <> path_parts "dir/subdir/file1.txt" /\
    get_permissions t' "dir/subdir" "user1" = Ok None.
Proof.
  set (t0 := match set_permissions scenario "dir/subdir/file1.txt" "user1" "rwx" with
             | Ok t => t | Err _ => scenario end).
  assert (H : set_permissions scenario "dir/subdir/file1.txt" "user1" "rwx" = Ok t0)
    by (vm_compute; reflexivity).
  assert (Hq : path_parts "dir/subdir" <> path_parts "dir/subdir/file1.txt")
    by (vm_compute; discriminate).
  exists t0. split; [exact H|]. split; [exact Hq|].
  rewrite (set_permissions_other_paths _ _ _ _ _ _ H Hq).
  vm_compute. reflexivity.
Defined.

(** ** The lines [display_tree] prints *)

Lemma string_append_assoc a b c :
  String.append (String.append a b) c = String.append a (String.append b c).
Proof. induction a as [|x a IH]; simpl; [reflexivity|now rewrite IH]. Qed.

Lemma display_tree_eq nm f ch ps indent :
  display_tree (mkNode nm f ch ps) indent =
  if f then [String.append indent (String.append "- " nm)]
  else String.append indent (String.append "+ " nm) ::
       flat_map (fun kc => display_tree (snd kc) (String.append indent "  ")) ch.
Proof.
  simpl. destruct f; [reflexivity|]. f_equal.
  induction ch as [|[k c] r IH]; simpl; [reflexivity|]. now rewrite IH.
Qed.

(** [display_tree(node, indent)] prints one line per node of the same
    depth-first walk as [search] (into directories only, children in
    insertion order): [indent], two spaces per level below [node], then
    ["- "] for a file or ["+ "] for a directory, then the node's [name]. *)
Theorem display_tree_lines n indent :
  display_tree n indent =
  map (fun kn => String.append indent
                   (String.append (spaces (length (fst kn)))
                      (String.append (if is_file (snd kn) then "- " else "+ ")
                         (name (snd kn)))))
      (nodes_with_keys n).
Proof.
  revert indent. induction n as [nm f ch ps IH] using FileSystemNode_ind'.
  intros indent. rewrite display_tree_eq, nodes_with_keys_eq.
  destruct f; [reflexivity|]. cbn [map fst snd length spaces is_file name].
  f_equal. clear nm ps.
  induction ch as [|[k c] r IHr]; [reflexivity|].
  inversion IH as [|? ? IHc IHrest]; subst.
  cbn [flat_map fst snd]. rewrite map_app, IHc, (IHr IHrest), map_map. f_equal.
  apply map_ext. intros [ks m]. cbn [fst snd length spaces].
  rewrite !string_append_assoc. reflexivity.
Qed.

(** ** Adding and removing one child *)

Lemma dict_set_new {V} k (v : V) d :
  dict_get k d = None -> dict_set k v d = d ++ [(k, v)].
Proof.
  induction d as [|[k' v'] r IH]; simpl; [reflexivity|].
  destruct (String.eqb k' k); [discriminate|]. intros H. now rewrite IH.
Qed.

Lemma dict_del_absent {V} k (d : list (string * V)) :
  dict_get k d = None -> dict_del k d = d.
Proof.
  induction d as [|[k' v'] r IH]; simpl; [reflexivity|].
  unfold dict_del in *. simpl.
  destruct (String.eqb k' k); [discriminate|]. intros H. simpl. now rewrite IH.
Qed.

Lemma dict_get_app_new {V} k k' (v : V) d :
  k <> k' -> dict_get k (d ++ [(k', v)]) = dict_get k d.
Proof.
  intros Hne. induction d as [|[k0 v0] r IH]; simpl.
  - apply String.eqb_neq in Hne. now rewrite String.eqb_sym, Hne.
  - destruct (String.eqb k0 k); [reflexivity|exact IH].
Qed.

(** [add_child] stores the child under its name, after all the existing
    names, leaves the other names' children alone, and [remove_child] of that
    name gives back the node as it was. *)
Theorem add_child_then_remove n c n'
    (H : add_child n c = Ok n') :
  get_child n' (name c) = Some c /\
  dict_keys (children n') = dict_keys (children n) ++ [name c] /\
  (forall k, k <> name c -> get_child n' k = get_child n k) /\
  remove_child n' (name c) = Ok n.
Proof.
  pose proof H as H'. unfold add_child in H'.
  destruct (is_file n); [discriminate|].
  destruct (dict_mem (name c) (children n)) eqn:Hm; [discriminate|].
  assert (Hg : dict_get (name c) (children n) = None)
    by (unfold dict_mem in Hm; destruct (dict_get _ _); congruence).
  apply add_child_ok in H as [_ ->]. unfold get_child; simpl.
  rewrite dict_set_new by exact Hg. split; [|split; [|split]].
  - clear -Hg. induction (children n) as [|[k' v'] r IH]; simpl in *.
    + now rewrite String.eqb_refl.
    + destruct (String.eqb k' (name c)); [discriminate|auto].
  - unfold dict_keys. now rewrite map_app.
  - intros k Hk. now apply dict_get_app_new.
  - assert (Hd : dict_del (name c) (children n ++ [(name c, c)]) = children n).
    { unfold dict_del. rewrite filter_app. simpl. rewrite String.eqb_refl. simpl.
      rewrite app_nil_r. exact (dict_del_absent _ _ Hg). }
    assert (Hm' : dict_mem (name c) (children n ++ [(name c, c)]) = true).
    { unfold dict_mem. clear -Hg. induction (children n) as [|[k' v'] r IH]; simpl in *.
      - now rewrite String.eqb_refl.
      - destruct (String.eqb k' (name c)); [discriminate|auto]. }
    unfold remove_child. cbn [children with_children]. rewrite Hm', Hd.
    destruct n as [nm f ch ps]. cbn [children] in *.
    destruct ch; reflexivity.
Qed.

Lemma add_child_then_remove_witness :
  add_child (mkNode "dir" false [] []) (mkNode "a" false [] []) =
    Ok (mkNode "dir" false [("a"%string, mkNode "a" false [] [])] []) /\
  remove_child (mkNode "dir" false [("a"%string, mkNode "a" false [] [])] []) "a" =
    Ok (mkNode "dir" false [] []).
Proof.
  assert (H : add_child (mkNode "dir" false [] []) (mkNode "a" false [] []) =
              Ok (mkNode "dir" false [("a"%string, mkNode "a" false [] [])] []))
    by reflexivity.
  split; [exact H|].
  exact (proj2 (proj2 (proj2 (add_child_then_remove _ _ _ H)))).
Defined.

(** ** A new last segment *)

Lemma create_loop_append X segs base cur par :
  traverse_from (Some cur) segs = Some par ->
  is_file par = false -> get_child par base = None ->
  create_loop X (segs ++ [base]) cur =
  (put_at cur segs (with_children par (dict_set base (mkNode base X [] []) (children par))),
   Ok tt).
Proof.
  revert cur. induction segs as [|s segs IH]; intros cur Ht Hf Hn.
  - injection Ht as <-. simpl. rewrite Hf, Hn. unfold add_child. simpl.
    rewrite Hf. unfold dict_mem. unfold get_child in Hn. rewrite Hn.
    rewrite Bool.eqb_reflx. unfold with_children at 1. simpl.
    now rewrite dict_set_set.
  - rewrite traverse_from_cons in Ht.
    destruct (is_file cur) eqn:Fc; [discriminate|].
    destruct (get_child cur s) as [c|] eqn:Hg; [|rewrite traverse_from_None in Ht; discriminate].
    cbn [app create_loop put_at]. rewrite Fc, Hg, (IH c Ht Hf Hn). reflexivity.
Qed.

Lemma dict_keys_set_new {V} k (v : V) d :
  dict_get k d = None -> dict_keys (dict_set k v d) = dict_keys d ++ [k].
Proof. intros H. rewrite dict_set_new by exact H. unfold dict_keys. now rewrite map_app. Qed.

(** When the parent of [p] resolves to a directory that has no child named
    like [p]'s last segment, [create(p, is_file=X)] succeeds, [p] then
    resolves to a fresh node of type [X] with no children, the parent lists
    its old names followed by the new one, and a new directory lists
    nothing. *)
Theorem create_new_entry_listed t p X par
    (Hp : traverse t (removelast (path_parts p)) = Some par)
    (Hd : is_file par = false)
    (Hn : get_child par (last (path_parts p) EmptyString) = None) :
  exists t',
    create t p X = (t', Ok tt) /\
    traverse t' (path_parts p) =
      Some (mkNode (last (path_parts p) EmptyString) X [] []) /\
    (forall q, path_parts q = removelast (path_parts p) ->
       list_directory t' q =
         Ok (dict_keys (children par) ++ [last (path_parts p) EmptyString])) /\
    (X = false -> list_directory t' p = Ok []).
Proof.
  set (segs := removelast (path_parts p)) in *.
  set (base := last (path_parts p) EmptyString) in *.
  set (new := mkNode base X [] []).
  set (par' := with_children par (dict_set base new (children par))).
  assert (Hc : create t p X = (put_at t segs par', Ok tt)).
  { unfold create. rewrite path_parts_split. exact (create_loop_append X segs base t par Hp Hd Hn). }
  assert (Ht' : traverse (put_at t segs par') segs = Some par')
    by exact (traverse_put_at t segs par par' Hp).
  assert (Hr : traverse (put_at t segs par') (path_parts p) = Some new).
  { unfold traverse in *. rewrite path_parts_split. fold segs base.
    rewrite traverse_from_app, Ht'. simpl. rewrite Hd.
    unfold get_child; simpl. now rewrite dict_get_set_eq. }
  exists (put_at t segs par'). split; [exact Hc|]. split; [exact Hr|]. split.
  - intros q Hq. unfold list_directory. rewrite Hq, Ht'. cbv beta iota.
    simpl is_file. rewrite Hd. simpl children.
    unfold get_child in Hn. now rewrite dict_keys_set_new.
  - intros ->. unfold list_directory. rewrite Hr. reflexivity.
Qed.

Lemma create_new_entry_listed_witness :
  exists t', create scenario "dir/subdir2" false = (t', Ok tt) /\
    list_directory t' "dir" =
      Ok ["subdir"%string; "file3.txt"%string; "subdir2"%string] /\
    list_directory t' "dir/subdir2" = Ok [].
Proof.
  assert (Hp : traverse scenario (removelast (path_parts "dir/subdir2")) =
               Some (mkNode "dir" false
                 [("subdir"%string, mkNode "subdir" false
                     [("file1.txt"%string, mkNode "file1.txt" true [] [])] []);
                  ("file3.txt"%string, mkNode "file3.txt" true [] [])] []))
    by (vm_compute; reflexivity).
  destruct (create_new_entry_listed scenario "dir/subdir2" false _ Hp eq_refl
              ltac:(vm_compute; reflexivity)) as [t' [Hc [_ [Hl He]]]].
  exists t'. split; [exact Hc|]. split.
  - rewrite (Hl "dir"%string) by (vm_compute; reflexivity). reflexivity.
  - exact (He eq_refl).
Defined.

(** ** [delete] keeps the order of the other names *)

Lemma dict_keys_del_filter {V} k (d : list (string * V)) :
  dict_keys (dict_del k d) = filter (fun k' => negb (String.eqb k' k)) (dict_keys d).
Proof.
  induction d as [|[k' v'] r IH]; simpl; [reflexivity|].
  unfold dict_del, dict_keys in *. simpl.
  destruct (String.eqb k' k); simpl; [exact IH|now rewrite IH].
Qed.

(** After deleting an existing [p], the parent lists exactly its former
    names without [p]'s basename, in their former order. *)
Theorem delete_keeps_sibling_order t p n
    (H : traverse t (path_parts p) = Some n) :
  exists par t',
    traverse t (removelast (path_parts p)) = Some par /\
    delete t p = Ok t' /\
    (forall q, path_parts q = removelast (path_parts p) ->
       list_directory t' q =
         Ok (filter (fun k => negb (String.eqb k (last (path_parts p) EmptyString)))
               (dict_keys (children par)))).
Proof.
  destruct (delete_existing t p n H) as [par [Hp [Hf [_ Hd]]]].
  set (segs := removelast (path_parts p)) in *.
  set (base := last (path_parts p) EmptyString) in *.
  set (par' := with_children par (dict_del base (children par))) in *.
  exists par, (put_at t segs par'). split; [exact Hp|]. split; [exact Hd|].
  intros q Hq. unfold list_directory. rewrite Hq.
  assert (Ht' : traverse (put_at t segs par') segs = Some par')
    by exact (traverse_put_at t segs par par' Hp).
  rewrite Ht'. cbv beta iota. simpl is_file. rewrite Hf. simpl children.
  now rewrite dict_keys_del_filter.
Qed.

Lemma delete_keeps_sibling_order_witness :
  exists t', delete scenario "dir/subdir" = Ok t' /\
    list_directory t' "dir" = Ok ["file3.txt"%string].
Proof.
  assert (H : traverse scenario (path_parts "dir/subdir") =
              Some (mkNode "subdir" false
                      [("file1.txt"%string, mkNode "file1.txt" true [] [])] []))
    by (vm_compute; reflexivity).
  destruct (delete_keeps_sibling_order _ _ _ H) as [par [t' [Hp [Hd Hl]]]].
  exists t'. split; [exact Hd|].
  rewrite (Hl "dir"%string) by (vm_compute; reflexivity).
  vm_compute in Hp. injection Hp as <-. reflexivity.
Defined.

(** ** Paths that go through a file *)

Lemma create_loop_through_file X a b cur f :
  traverse_from (Some cur) a = Some f -> is_file f = true -> b <> [] ->
  create_loop X (a ++ b) cur = (cur, Err CannotCreateInsideFile).
Proof.
  intros Ha Hf Hb. revert cur Ha. induction a as [|s a IH]; intros cur Ha.
  - injection Ha as <-. destruct b as [|k b]; [congruence|]. simpl. now rewrite Hf.
  - rewrite traverse_from_cons in Ha.
    destruct (is_file cur) eqn:Fc; [discriminate|].
    destruct (get_child cur s) as [c|] eqn:Hg; [|rewrite traverse_from_None in Ha; discriminate].
    cbn [app create_loop]. rewrite Fc, Hg, (IH c Ha). f_equal.
    destruct cur as [nm fl ch ps]. unfold with_children; simpl.
    unfold get_child in Hg; simpl in Hg. now rewrite dict_set_same.
Qed.

Lemma traverse_through_file t a b f :
  traverse_from (Some t) a = Some f -> is_file f = true -> b <> [] ->
  traverse_from (Some t) (a ++ b) = None.
Proof.
  intros Ha Hf Hb. rewrite traverse_from_app, Ha.
  destruct b as [|k b]; [congruence|]. rewrite traverse_from_cons, Hf. reflexivity.
Qed.

(** A path that continues below a file resolves to nothing: listing it,
    reading or writing its permissions fail, and [create] fails with the
    inside-a-file error and leaves the tree as it was. *)
Theorem path_through_file t a f b
    (Ha : traverse t a = Some f) (Hf : is_file f = true) (Hb : b <> []) :
  forall q, path_parts q = a ++ b ->
    list_directory t q = Err NotADirectory /\
    (forall u, get_permissions t q u = Err PathNotFound) /\
    (forall u v, set_permissions t q u v = Err PathNotFound) /\
    (forall X, create t q X = (t, Err CannotCreateInsideFile)).
Proof.
  intros q Hq.
  assert (Hn : traverse t (path_parts q) = None)
    by (rewrite Hq; exact (traverse_through_file t a b f Ha Hf Hb)).
  split; [unfold list_directory; now rewrite Hn|].
  split; [intros u; unfold get_permissions; now rewrite Hn|].
  split; [intros u v; unfold set_permissions; cbv zeta; now rewrite Hn|].
  intros X. unfold create. rewrite Hq. exact (create_loop_through_file X a b t f Ha Hf Hb).
Qed.

Lemma path_through_file_witness :
  traverse scenario ["dir"%string; "file3.txt"%string] =
    Some (mkNode "file3.txt" true [] []) /\
  create scenario "dir/file3.txt/x" false = (scenario, Err CannotCreateInsideFile).
Proof.
  assert (Ha : traverse scenario ["dir"%string; "file3.txt"%string] =
               Some (mkNode "file3.txt" true [] [])) by (vm_compute; reflexivity).
  split; [exact Ha|].
  exact (proj2 (proj2 (proj2 (path_through_file scenario _ _ ["x"%string] Ha eq_refl
           ltac:(discriminate) "dir/file3.txt/x" ltac:(vm_compute; reflexivity)))) false).
Defined.

(** ** The root keeps its name and type *)

Lemma create_loop_top X parts cur :
  name (fst (create_loop X parts cur)) = name cur /\
  is_file (fst (create_loop X parts cur)) = is_file cur.
Proof.
  destruct parts as [|part rest]; simpl; [auto|].
  destruct (is_file cur) eqn:Fc; [auto|].
  destruct (get_child cur part); [destruct (create_loop X rest _); auto|].
  destruct (add_child cur _) as [cur1|e] eqn:Ha; [|auto].
  apply add_child_ok in Ha as [_ ->]. destruct (create_loop X rest _). auto.
Qed.

Lemma put_at_top t segs n x :
  traverse_from (Some t) segs = Some n ->
  name x = name n -> is_file x = is_file n ->
  name (put_at t segs x) = name t /\ is_file (put_at t segs x) = is_file t.
Proof.
  intros Ht Hn Hf. destruct segs as [|s segs].
  - injection Ht as <-. auto.
  - simpl. destruct (get_child t s); auto.
Qed.

(** The root is never renamed or retyped: [create], a successful [delete]
    and a successful [set_permissions] all return a root with the old root's
    name and [is_file] flag. *)
Theorem root_name_and_type_kept t p X u v :
  name (fst (create t p X)) = name t /\ is_file (fst (create t p X)) = is_file t /\
  (forall t', delete t p = Ok t' -> name t' = name t /\ is_file t' = is_file t) /\
  (forall t', set_permissions t p u v = Ok t' -> name t' = name t /\ is_file t' = is_file t).
Proof.
  destruct (create_loop_top X (path_parts p) t) as [H1 H2].
  split; [exact H1|]. split; [exact H2|]. split.
  - intros t' Hd. unfold delete in Hd. cbv zeta in Hd.
    destruct (traverse t _) as [par|] eqn:Hp; [|discriminate].
    destruct (remove_child par _) as [par'|e] eqn:Hr; [|discriminate].
    injection Hd as <-. unfold remove_child in Hr.
    destruct (_ || _); [discriminate|]. injection Hr as <-.
    apply (put_at_top t _ par _ Hp); reflexivity.
  - intros t' Hs. unfold set_permissions in Hs. cbv zeta in Hs.
    destruct (traverse t _) as [n|] eqn:Hp; [|discriminate].
    injection Hs as <-. apply (put_at_top t _ n _ Hp); reflexivity.
Qed.

Lemma root_name_and_type_kept_witness :
  name (fst (create init_root "a/b" true)) = "/"%string /\
  (forall t', delete scenario "dir" = Ok t' -> name t' = "/"%string).
Proof.
  split.
  - exact (proj1 (root_name_and_type_kept init_root "a/b" true "u" "r")).
  - intros t' Hd.
    exact (proj1 (proj1 (proj2 (proj2 (root_name_and_type_kept scenario "dir" false "u" "r")))
                    t' Hd)).
Defined.

(** ** Permissions are invisible to listing, search and display *)

Lemma dict_get_map_erase_opt k d :
  dict_get k (map erase_entry d) = option_map erase_permissions (dict_get k d).
Proof.
  induction d as [|[k' c'] r IH]; simpl; [reflexivity|].
  destruct (String.eqb k' k); [reflexivity|exact IH].
Qed.

Lemma dict_keys_map_erase d : dict_keys (map erase_entry d) = dict_keys d.
Proof. unfold dict_keys. rewrite map_map. reflexivity. Qed.

Lemma traverse_from_erase path o :
  traverse_from (option_map erase_permissions o) path =
  option_map erase_permissions (traverse_from o path).
Proof.
  revert o. induction path as [|s path IH]; intros [c|]; try reflexivity.
  cbn [option_map traverse_from]. rewrite erase_permissions_eq. cbn [is_file].
  destruct (is_file c); [reflexivity|].
  unfold get_child. cbn [children]. rewrite dict_get_map_erase_opt. apply IH.
Qed.

Lemma list_directory_erase t q :
  list_directory (erase_permissions t) q = list_directory t q.
Proof.
  unfold list_directory, traverse.
  change (Some (erase_permissions t)) with (option_map erase_permissions (Some t)).
  rewrite traverse_from_erase.
  destruct (traverse_from (Some t) _) as [n|]; simpl; [|reflexivity].
  rewrite erase_permissions_eq. simpl. now rewrite dict_keys_map_erase.
Qed.

Lemma search_erase q n path :
  search q (erase_permissions n) path = search q n path.
Proof.
  revert path. induction n as [nm f ch ps IH] using FileSystemNode_ind'. intros path.
  rewrite erase_permissions_eq. simpl (name _). simpl (is_file _). simpl (children _).
  rewrite !search_eq. f_equal. destruct f; [reflexivity|].
  clear nm ps. induction ch as [|[k c] r IHr]; [reflexivity|].
  inversion IH as [|? ? IHc IHrest]; subst.
  cbn [map flat_map erase_entry fst snd]. rewrite IHc, (IHr IHrest). reflexivity.
Qed.

Lemma display_tree_erase n indent :
  display_tree (erase_permissions n) indent = display_tree n indent.
Proof.
  revert indent. induction n as [nm f ch ps IH] using FileSystemNode_ind'. intros indent.
  rewrite erase_permissions_eq. simpl (name _). simpl (is_file _). simpl (children _).
  rewrite !display_tree_eq. destruct f; [reflexivity|]. f_equal.
  clear nm ps. induction ch as [|[k c] r IHr]; [reflexivity|].
  inversion IH as [|? ? IHc IHrest]; subst.
  cbn [map flat_map erase_entry fst snd]. rewrite IHc, (IHr IHrest). reflexivity.
Qed.

(** A successful [set_permissions] changes nothing that [list_directory],
    [search] or [display_tree] can see: every listing, every search result
    and every printed tree is the same as before. *)
Theorem set_permissions_unobservable t p u v t'
    (H : set_permissions t p u v = Ok t') :
  (forall q, list_directory t' q = list_directory t q) /\
  (forall nm, fs_search t' nm = fs_search t nm) /\
  (forall indent, display_tree t' indent = display_tree t indent).
Proof.
  unfold set_permissions in H. cbv zeta in H.
  destruct (traverse t (path_parts p)) as [n|] eqn:Ht; [|discriminate].
  injection H as <-.
  destruct (put_at_frame t (path_parts p) n (node_set_permissions n u v) Ht eq_refl)
    as [pos [_ [_ [_ H4]]]].
  assert (He : erase_permissions (put_at t (path_parts p) (node_set_permissions n u v)) =
               erase_permissions t)
    by (apply H4; rewrite !erase_permissions_eq; reflexivity).
  split; [|split].
  - intros q. now rewrite <- list_directory_erase, He, list_directory_erase.
  - intros nm. unfold fs_search. now rewrite <- search_erase, He, search_erase.
  - intros indent. now rewrite <- display_tree_erase, He, display_tree_erase.
Qed.

Lemma set_permissions_unobservable_witness :
  exists t', set_permissions scenario "dir/file3.txt" "user1" "rw" = Ok t' /\
    list_directory t' "dir" = list_directory scenario "dir" /\
    fs_search t' "file3.txt" = fs_search scenario "file3.txt".
Proof.
  eexists. split; [vm_compute; reflexivity|].
  assert (H : set_permissions scenario "dir/file3.txt" "user1" "rw" =
              Ok (match set_permissions scenario "dir/file3.txt" "user1" "rw" with
                  | Ok t => t | Err _ => scenario end)) by (vm_compute; reflexivity).
  destruct (set_permissions_unobservable _ _ _ _ _ H) as [H1 [H2 _]].
  split; [apply H1|apply H2].
Defined.

(** ** [create] only adds *)

Lemma node_extends_refl n : node_extends n n.
Proof. repeat split. exists []. now rewrite app_nil_r. Qed.

Lemma dict_keys_set_existing {V} k (v v' : V) d :
  dict_get k d = Some v -> dict_keys (dict_set k v' d) = dict_keys d.
Proof.
  induction d as [|[k0 v0] r IH]; simpl; [discriminate|].
  destruct (String.eqb k0 k) eqn:E; [reflexivity|]. intros H. simpl. now rewrite (IH H).
Qed.

Lemma create_loop_only_adds X parts :
  forall cur ps n, traverse_from (Some cur) ps = Some n ->
  exists n', traverse_from (Some (fst (create_loop X parts cur))) ps = Some n' /\
             node_extends n n'.
Proof.
  induction parts as [|part rest IH]; intros cur ps n Hps.
  - exists n. split; [exact Hps|apply node_extends_refl].
  - cbn [create_loop]. destruct (is_file cur) eqn:Fc;
      [exists n; split; [exact Hps|apply node_extends_refl]|].
    destruct (get_child cur part) as [c|] eqn:Hg.
    + destruct (create_loop X rest c) as [c' r] eqn:Hc. cbn [fst].
      destruct ps as [|s ps].
      * injection Hps as <-. exists (with_children cur (dict_set part c' (children cur))).
        split; [reflexivity|]. repeat split. exists [].
        rewrite app_nil_r. exact (dict_keys_set_existing _ _ _ _ Hg).
      * rewrite traverse_from_cons in Hps |- *. rewrite Fc in Hps. cbn [is_file with_children].
        rewrite Fc. destruct (String.eqb s part) eqn:E.
        -- apply String.eqb_eq in E. subst s. rewrite get_child_with_children_set.
           rewrite Hg in Hps. destruct (IH c ps n Hps) as [n' [Ht Hx]].
           rewrite Hc in Ht. exists n'. split; [exact Ht|exact Hx].
        -- apply String.eqb_neq in E. unfold get_child at 1.
           change (children (with_children ?a ?b)) with b.
           rewrite dict_get_set_neq by exact E. exists n. split; [exact Hps|apply node_extends_refl].
    + set (new_node := mkNode part _ [] []).
      destruct (add_child cur new_node) as [cur1|e] eqn:Ha;
        [|exists n; split; [exact Hps|apply node_extends_refl]].
      apply add_child_ok in Ha as [_ ->].
      destruct (create_loop X rest new_node) as [c' r]. cbn [fst].
      assert (Hch : children (with_children (with_children cur (dict_set (name new_node) new_node
                      (children cur))) (dict_set part c' (children (with_children cur
                      (dict_set (name new_node) new_node (children cur)))))) =
                    dict_set part c' (children cur))
        by (cbn [children with_children name new_node]; apply dict_set_set).
      destruct ps as [|s ps].
      * injection Hps as <-. eexists. split; [reflexivity|]. repeat split. exists [part].
        rewrite Hch. unfold get_child in Hg. exact (dict_keys_set_new _ _ _ Hg).
      * rewrite traverse_from_cons in Hps |- *. rewrite Fc in Hps. cbn [is_file with_children].
        rewrite Fc. destruct (String.eqb s part) eqn:E.
        -- apply String.eqb_eq in E. subst s. rewrite Hg, traverse_from_None in Hps. discriminate.
        -- apply String.eqb_neq in E. unfold get_child at 1.
           change (children (with_children ?a ?b)) with b.
           rewrite dict_get_set_neq by exact E. cbn [children with_children name new_node].
           rewrite dict_get_set_neq by exact E. exists n. split; [exact Hps|apply node_extends_refl].
Qed.

(** [create] never removes, renames or retypes anything and never changes
    permissions: every path that resolved before resolves afterwards to a
    node with the same name, type and permissions, whose child names start
    with the old ones in their old order. *)
Theorem create_only_adds t p X ps n (H : traverse t ps = Some n) :
  exists n', traverse (fst (create t p X)) ps = Some n' /\
    name n' = name n /\ is_file n' = is_file n /\ permissions n' = permissions n /\
    exists extra, dict_keys (children n') = dict_keys (children n) ++ extra.
Proof. exact (create_loop_only_adds X (path_parts p) t ps n H). Qed.

Lemma create_only_adds_witness :
  exists n', traverse (fst (create scenario "dir/new.txt" true)) ["dir"%string] = Some n' /\
    is_file n' = false /\
    exists extra, dict_keys (children n') = ["subdir"%string; "file3.txt"%string] ++ extra.
Proof.
  assert (H : traverse scenario ["dir"%string] =
              Some (match traverse scenario ["dir"%string] with
                    | Some n => n | None => init_root end))
    by (vm_compute; reflexivity).
  destruct (create_only_adds scenario "dir/new.txt" true ["dir"%string] _ H)
    as [n' [Ht [_ [Hf [_ Hk]]]]].
  exists n'. split; [exact Ht|]. split; [exact Hf|exact Hk].
Defined.

(** ** When [delete] succeeds *)

Lemma scenario_files_childless : files_childless scenario.
Proof. vm_compute. repeat split; intros; discriminate. Qed.

(** In a tree where files have no children, [delete p] succeeds exactly when
    [p] resolves to a node; otherwise it raises the path-not-found error
    when the parent of [p] does not resolve, and the child-not-found error
    when it does. *)
Theorem delete_ok_iff_resolves t p (Hinv : files_childless t) :
  ((exists t', delete t p = Ok t') <-> traverse t (path_parts p) <> None) /\
  (traverse t (path_parts p) = None ->
     delete t p = Err (match traverse t (removelast (path_parts p)) with
                       | None => PathNotFound
                       | Some _ => ChildNotFound
                       end)).
Proof.
  pose proof (path_parts_split p) as Hs.
  unfold delete. cbv zeta.
  set (ps := path_parts p) in *. set (base := last ps EmptyString) in *.
  set (pre := removelast ps) in *.
  assert (Ht : traverse t ps = traverse_from (traverse t pre) [base])
    by (unfold traverse; rewrite Hs at 1; apply traverse_from_app).
  rewrite Ht. clear Ht Hs.
  destruct (traverse t pre) as [par|] eqn:Hp.
  - rewrite traverse_from_cons. cbn [traverse_from].
    destruct (is_file par) eqn:Fp.
    + assert (Hc : children par = []).
      { apply (traverse_files_childless t pre par Hinv) in Hp.
        apply files_childless_eq in Hp as [Hc _]. exact (Hc Fp). }
      assert (Hr : remove_child par base = Err ChildNotFound)
        by (unfold remove_child; rewrite Hc; reflexivity).
      rewrite Hr. split; [split; [intros [t' H]; discriminate|congruence]|reflexivity].
    + destruct (get_child par base) as [n|] eqn:Hg.
      * rewrite (remove_child_present par base n Hg).
        split; [split; [discriminate|eauto]|discriminate].
      * assert (Hm : dict_mem base (children par) = false)
          by (unfold dict_mem; unfold get_child in Hg; now rewrite Hg).
        rewrite (remove_child_absent par base Hm).
        split; [split; [intros [t' H]; discriminate|congruence]|reflexivity].
  - rewrite traverse_from_None.
    split; [split; [intros [t' H]; discriminate|congruence]|reflexivity].
Qed.

Lemma delete_ok_iff_resolves_witness :
  files_childless scenario /\
  delete scenario "dir/file3.txt/x" = Err ChildNotFound /\
  delete scenario "nowhere/x" = Err PathNotFound.
Proof.
  split; [exact scenario_files_childless|].
  split.
  - exact (proj2 (delete_ok_iff_resolves scenario "dir/file3.txt/x" scenario_files_childless)
             ltac:(vm_compute; reflexivity)).
  - exact (proj2 (delete_ok_iff_resolves scenario "nowhere/x" scenario_files_childless)
             ltac:(vm_compute; reflexivity)).
Defined.

(** ** Children are stored under their own names *)

Lemma keys_match_eq n :
  keys_match n <-> Forall (fun kc => name (snd kc) = fst kc /\ keys_match (snd kc)) (children n).
Proof.
  destruct n as [nm f ch ps]; simpl.
  induction ch as [|[k c] r IH]; simpl.
  - split; auto.
  - rewrite Forall_cons_iff, IH. reflexivity.
Qed.

Lemma Forall_dict_set_kv {V} (Q : string * V -> Prop) k v d :
  Forall Q d -> Q (k, v) -> Forall Q (dict_set k v d).
Proof.
  intros Hd Hv. induction Hd as [|[k' v'] r Hh Hr IH]; simpl.
  - now constructor.
  - destruct (String.eqb k' k) eqn:E; constructor; auto.
    apply String.eqb_eq in E. now subst k'.
Qed.

Lemma Forall_dict_get_kv {V} (Q : string * V -> Prop) k v d :
  Forall Q d -> dict_get k d = Some v -> Q (k, v).
Proof.
  intros Hd. induction Hd as [|[k' v'] r Hh Hr IH]; simpl; [discriminate|].
  destruct (String.eqb k' k) eqn:E; [|exact IH].
  intros [= <-]. apply String.eqb_eq in E. now subst k'.
Qed.

Lemma keys_match_set_child n part c :
  keys_match n -> name c = part -> keys_match c ->
  keys_match (with_children n (dict_set part c (children n))).
Proof.
  intros Hn Hnm Hc. apply keys_match_eq in Hn. apply keys_match_eq; simpl.
  apply (Forall_dict_set_kv (fun kc => name (snd kc) = fst kc /\ keys_match (snd kc)));
    [exact Hn|split; assumption].
Qed.

Lemma keys_match_child n part c :
  keys_match n -> get_child n part = Some c -> name c = part /\ keys_match c.
Proof.
  intros Hn Hg. apply keys_match_eq in Hn.
  exact (Forall_dict_get_kv (fun kc => name (snd kc) = fst kc /\ keys_match (snd kc))
           _ _ _ Hn Hg).
Qed.

Lemma create_loop_keys_match X parts cur :
  keys_match cur -> keys_match (fst (create_loop X parts cur)).
Proof.
  revert cur. induction parts as [|part rest IH]; intros cur Hc; [exact Hc|].
  cbn [create_loop]. destruct (is_file cur) eqn:Hf; [exact Hc|].
  destruct (get_child cur part) as [child|] eqn:Hg.
  - destruct (keys_match_child _ _ _ Hc Hg) as [Hnm Hk].
    pose proof (IH child Hk) as Hch.
    pose proof (proj1 (create_loop_top X rest child)) as Htop.
    destruct (create_loop X rest child) as [child' r]. cbn [fst] in *.
    apply keys_match_set_child; [exact Hc|congruence|exact Hch].
  - set (new_node := mkNode part _ [] []).
    destruct (add_child cur new_node) as [cur1|e] eqn:Ha; [|exact Hc].
    assert (Hnew : keys_match new_node) by exact I.
    pose proof (IH new_node Hnew) as Hch.
    pose proof (proj1 (create_loop_top X rest new_node)) as Htop.
    destruct (create_loop X rest new_node) as [child' r]. cbn [fst] in *.
    apply add_child_ok in Ha as [_ ->].
    apply keys_match_set_child; [|exact Htop|exact Hch].
    apply keys_match_set_child; [exact Hc|reflexivity|exact Hnew].
Qed.

Lemma put_at_keys_match t segs n x :
  keys_match t -> traverse_from (Some t) segs = Some n ->
  name x = name n -> keys_match x -> keys_match (put_at t segs x).
Proof.
  revert t. induction segs as [|s segs IH]; intros t Ht Hs Hx Hkx; [exact Hkx|].
  rewrite traverse_from_cons in Hs. destruct (is_file t); [discriminate|].
  cbn [put_at]. destruct (get_child t s) as [c|] eqn:Hg;
    [|rewrite traverse_from_None in Hs; discriminate].
  destruct (keys_match_child _ _ _ Ht Hg) as [Hnm Hk].
  apply keys_match_set_child; [exact Ht| |exact (IH c Hk Hs Hx Hkx)].
  rewrite <- Hnm. destruct segs as [|s' segs'].
  - injection Hs as <-. exact Hx.
  - cbn [put_at]. destruct (get_child c s'); reflexivity.
Qed.

Lemma remove_child_keys_match n k n' :
  keys_match n -> remove_child n k = Ok n' -> keys_match n'.
Proof.
  unfold remove_child. destruct (_ || _); [discriminate|]. intros Hn [= <-].
  apply keys_match_eq in Hn. apply keys_match_eq; simpl.
  unfold dict_del. rewrite Forall_forall in *. intros kv Hin. apply filter_In in Hin.
  now apply Hn.
Qed.

Lemma traverse_keys_match t segs n :
  keys_match t -> traverse_from (Some t) segs = Some n -> keys_match n.
Proof.
  revert t. induction segs as [|s segs IH]; intros t Ht H.
  - now injection H as <-.
  - rewrite traverse_from_cons in H. destruct (is_file t); [discriminate|].
    destruct (get_child t s) as [c|] eqn:Hg; [|rewrite traverse_from_None in H; discriminate].
    exact (IH c (proj2 (keys_match_child _ _ _ Ht Hg)) H).
Qed.

(** Every child is stored under its own name: this holds for the empty
    file system and is kept by [create], by a successful [delete] and by a
    successful [set_permissions]. So the names [list_directory] returns and
    the path segments [search] builds from the keys are the nodes' own
    names, which [display_tree] prints. *)
Theorem keys_match_kept :
  keys_match init_root /\
  (forall t p X, keys_match t -> keys_match (fst (create t p X))) /\
  (forall t p t', keys_match t -> delete t p = Ok t' -> keys_match t') /\
  (forall t p u v t', keys_match t -> set_permissions t p u v = Ok t' -> keys_match t').
Proof.
  split; [exact I|]. split; [intros t p X Ht; exact (create_loop_keys_match _ _ _ Ht)|].
  split.
  - intros t p t' Ht Hd. unfold delete in Hd. cbv zeta in Hd.
    destruct (traverse t _) as [par|] eqn:Hp; [|discriminate].
    destruct (remove_child par _) as [par'|e] eqn:Hr; [|discriminate].
    injection Hd as <-.
    apply (put_at_keys_match t _ par); [exact Ht|exact Hp| |].
    + unfold remove_child in Hr. destruct (_ || _); [discriminate|]. now injection Hr as <-.
    + exact (remove_child_keys_match _ _ _ (traverse_keys_match _ _ _ Ht Hp) Hr).
  - intros t p u v t' Ht Hs. unfold set_permissions in Hs. cbv zeta in Hs.
    destruct (traverse t _) as [n|] eqn:Hp; [|discriminate].
    injection Hs as <-.
    apply (put_at_keys_match t _ n); [exact Ht|exact Hp|reflexivity|].
    pose proof (traverse_keys_match _ _ _ Ht Hp) as Hn.
    destruct n as [nm f ch ps]. exact Hn.
Qed.

Lemma keys_match_kept_witness :
  keys_match scenario /\
  keys_match (fst (create scenario "dir/a/b" true)).
Proof.
  assert (Hc := proj1 (proj2 keys_match_kept)).
  assert (H1 : keys_match scenario)
    by (unfold scenario; apply Hc, Hc, Hc, (proj1 keys_match_kept)).
  split; [exact H1|exact (Hc _ _ _ H1)].
Defined.
